(** * Tank-tactics core: the event-sourced game engine and its replay driver

    A shallow embedding of [game.ts]: the state model, [initGame],
    [processEvent] (one transition), [initProcess], [processEvents] (append)
    and [calculateState] (replay), followed by the properties of the
    specification that were checked against it.

    Conventions of the embedding.
    - JavaScript numbers are integers, [Z]; so [typeof target !== "number"],
      [Number.isInteger] and [Number.isNaN] never reject anything.
    - Instants are the ISO-8601 strings of the source, compared as the source
      compares them: [<=], [<], [>=], [>] on strings are lexicographic on code
      units, which is [String.compare] for ASCII strings.
    - [null], [undefined] and array holes are all [None]; the source only
      ever tests them with [!= null].
    - A thrown exception is [Throw]; a [TypeError] is what reading a property
      of [undefined] raises.
    - [processEvent] writes through [pState], an alias of a player object of
      its *input* state.  The embedding therefore returns, next to the
      result, the contents of the input state object after the call. *)

From Stdlib Require Import ZArith String Ascii Sorted.
From Stdlib Require OrderedTypeEx.
From stdpp Require Import base tactics option numbers list relations.

Local Open Scope string_scope.
Local Open Scope Z_scope.

(** ** JavaScript values *)

Inductive exn :=
| Error (msg : string)
| TypeError
| RangeError.

Inductive result (A : Type) :=
| Ok (a : A)
| Throw (e : exn).
Arguments Ok {A} a.
Arguments Throw {A} e.

(** String comparison operators of the source. *)
Definition str_le (a b : string) : bool := String.leb a b.   (* a <= b *)
Definition str_lt (a b : string) : bool := String.ltb a b.   (* a <  b *)
Definition str_ge (a b : string) : bool := String.leb b a.   (* a >= b *)
Definition str_gt (a b : string) : bool := String.ltb b a.   (* a >  b *)

(** [a[i]]: [undefined] outside of [0 .. length-1]. *)
Definition js_get {A} (a : list A) (i : Z) : option A :=
  if i <? 0 then None else a !! Z.to_nat i.

(** [a[i] = v] on an array: an index past the end extends the array with
    holes; a negative index only adds a property, which no read of the source
    ever looks at and which [map] does not copy. *)
Definition js_set {A} (a : list (option A)) (i : Z) (v : option A) : list (option A) :=
  if i <? 0 then a
  else if (Z.to_nat i <? length a)%nat then <[Z.to_nat i := v]> a
  else a ++ replicate (Z.to_nat i - length a) None ++ [v].

(** ** Data model *)

Record Player := { id : string }.

Record Dimensions := { height : Z; width : Z }.

Record GameConfig := {
  players : list Player;
  dimensions : Dimensions;
  startAt : string;
  turnInterval : string;
  turnIntervalTZ : string;
}.

Record GamePlayerState := {
  placed : bool;
  alive : bool;
  disqualified : bool;
  locRow : Z;
  locCol : Z;
  range : Z;
  ap : Z;
  hp : Z;
}.

Record GameState := {
  config : GameConfig;
  playerStates : list GamePlayerState;
  boardState : list (list (option Z));
  votes : list (option Z);
  winner : option Z;
}.

(** The direction of a MOVE is kept as a string: [getVector] takes any value
    and answers [null] for the ones it does not know. *)
Inductive GameEvent :=
| UPGRADE (submittedAt : string) (player : Z)
| PLACE (submittedAt : string) (player row col : Z)
| MOVE (submittedAt : string) (player : Z) (dir : string)
| FIRE (submittedAt : string) (player target : Z)
| VOTE (submittedAt : string) (player target : Z)
| GIFT_AP (submittedAt : string) (player target : Z)
| GIFT_HP (submittedAt : string) (player target : Z)
| TICK (submittedAt : string).

Definition submittedAt (e : GameEvent) : string :=
  match e with
  | UPGRADE t _ | PLACE t _ _ _ | MOVE t _ _ | FIRE t _ _
  | VOTE t _ _ | GIFT_AP t _ _ | GIFT_HP t _ _ | TICK t => t
  end.

Definition is_tick (e : GameEvent) : bool :=
  match e with TICK _ => true | _ => false end.

Record GameProcessState := {
  state : GameState;
  events : list GameEvent;
  updatedAt : string;
}.

(** Field updates of a player object. *)
Definition with_placed (b : bool) (p : GamePlayerState) : GamePlayerState :=
  {| placed := b; alive := alive p; disqualified := disqualified p;
     locRow := locRow p; locCol := locCol p; range := range p; ap := ap p; hp := hp p |}.
Definition with_alive (b : bool) (p : GamePlayerState) : GamePlayerState :=
  {| placed := placed p; alive := b; disqualified := disqualified p;
     locRow := locRow p; locCol := locCol p; range := range p; ap := ap p; hp := hp p |}.
Definition with_disqualified (b : bool) (p : GamePlayerState) : GamePlayerState :=
  {| placed := placed p; alive := alive p; disqualified := b;
     locRow := locRow p; locCol := locCol p; range := range p; ap := ap p; hp := hp p |}.
Definition with_loc (r c : Z) (p : GamePlayerState) : GamePlayerState :=
  {| placed := placed p; alive := alive p; disqualified := disqualified p;
     locRow := r; locCol := c; range := range p; ap := ap p; hp := hp p |}.
Definition with_range (n : Z) (p : GamePlayerState) : GamePlayerState :=
  {| placed := placed p; alive := alive p; disqualified := disqualified p;
     locRow := locRow p; locCol := locCol p; range := n; ap := ap p; hp := hp p |}.
Definition with_ap (n : Z) (p : GamePlayerState) : GamePlayerState :=
  {| placed := placed p; alive := alive p; disqualified := disqualified p;
     locRow := locRow p; locCol := locCol p; range := range p; ap := n; hp := hp p |}.
Definition with_hp (n : Z) (p : GamePlayerState) : GamePlayerState :=
  {| placed := placed p; alive := alive p; disqualified := disqualified p;
     locRow := locRow p; locCol := locCol p; range := range p; ap := ap p; hp := n |}.

(** Field updates of a state object. *)
Definition with_playerStates (ps : list GamePlayerState) (s : GameState) : GameState :=
  {| config := config s; playerStates := ps; boardState := boardState s;
     votes := votes s; winner := winner s |}.
Definition with_boardState (b : list (list (option Z))) (s : GameState) : GameState :=
  {| config := config s; playerStates := playerStates s; boardState := b;
     votes := votes s; winner := winner s |}.
Definition with_votes (v : list (option Z)) (s : GameState) : GameState :=
  {| config := config s; playerStates := playerStates s; boardState := boardState s;
     votes := v; winner := winner s |}.
Definition with_winner (w : option Z) (s : GameState) : GameState :=
  {| config := config s; playerStates := playerStates s; boardState := boardState s;
     votes := votes s; winner := w |}.

(** ** initGame *)

Definition initPlayerState : GamePlayerState :=
  {| placed := false; alive := true; disqualified := false;
     locRow := -1; locCol := -1; range := 2; ap := 0; hp := 0 |}.

(** [Array(n)] raises a RangeError unless [n] is a valid array length. *)
Definition valid_array_length (n : Z) : bool := (0 <=? n) && (n <=? 4294967295).

Definition initGame (cfg : GameConfig) : result GameState :=
  (* typia.is<GameConfig>(config) holds of every value of the record type *)
  let outputConfig :=
    {| players := map (fun p => {| id := id p |}) (players cfg);
       dimensions := {| height := height (dimensions cfg); width := width (dimensions cfg) |};
       startAt := startAt cfg;
       turnInterval := turnInterval cfg;
       turnIntervalTZ := turnIntervalTZ cfg |} in
  let playerStates_ := map (fun _ => initPlayerState) (players cfg) in
  let h := height (dimensions outputConfig) in
  let w := width (dimensions outputConfig) in
  if negb (valid_array_length h) then Throw RangeError
  else if (0 <? h) && negb (valid_array_length w) then Throw RangeError
  else
    Ok {| config := outputConfig;
          playerStates := playerStates_;
          boardState := replicate (Z.to_nat h) (replicate (Z.to_nat w) None);
          votes := map (fun _ => None) playerStates_;
          winner := None |}.

(** ** processEvent *)

Definition getVector (v : string) : option (Z * Z) :=
  if String.eqb v "UP" then Some (-1, 0)
  else if String.eqb v "LEFT" then Some (0, -1)
  else if String.eqb v "RIGHT" then Some (-1, 0)
  else if String.eqb v "DOWN" then Some (1, 0)
  else None.

(** [playerStates.map((p, i) => (p.alive ? i : null)).filter((x) => x != null)],
    the map and the filter done in one pass, [i] being the index of the head. *)
Fixpoint survivors_from (i : Z) (ps : list GamePlayerState) : list Z :=
  match ps with
  | [] => []
  | p :: ps' =>
      if alive p then i :: survivors_from (i + 1) ps' else survivors_from (i + 1) ps'
  end.

Definition survivors (ps : list GamePlayerState) : list Z := survivors_from 0 ps.

(** The win condition, evaluated on a state whose [winner] is still [null]. *)
Definition evalWinner (next : GameState) : GameState :=
  match survivors (playerStates next) with
  | [w] => with_winner (Some w) next
  | [] => with_winner (Some (-1)) next
  | _ => next
  end.

(** The deep copy made at the start of every transition. *)
Definition cloneState (s : GameState) : GameState :=
  {| config :=
       {| players := map (fun p => {| id := id p |}) (players (config s));
          dimensions := {| height := height (dimensions (config s));
                           width := width (dimensions (config s)) |};
          startAt := startAt (config s);
          turnInterval := turnInterval (config s);
          turnIntervalTZ := turnIntervalTZ (config s) |};
     playerStates := map (fun p => p) (playerStates s);
     boardState := map (fun row => map (fun value => value) row) (boardState s);
     votes := map (fun v => v) (votes s);
     winner := None |}.

(** TICK, first pass: unplaced players are disqualified. *)
Definition tickDisqualify (p : GamePlayerState) : GamePlayerState :=
  if placed p then p else with_disqualified true (with_alive false p).

(** TICK, second pass: [votes.forEach((v, i) => ...)], [i] the index of the
    head of [vs]; [voteCounts[v]++] for a vote that counts. *)
Fixpoint tallyVotes (ps : list GamePlayerState) (i : nat) (vs : list (option Z))
    (voteCounts : list Z) : result (list Z) :=
  match vs with
  | [] => Ok voteCounts
  | v :: vs' =>
      match ps !! i with
      | None => Throw TypeError
      | Some voter =>
          if negb (disqualified voter) && negb (alive voter) then
            match v with
            | None => tallyVotes ps (S i) vs' voteCounts
            | Some t =>
                match js_get ps t with
                | None => Throw TypeError
                | Some q =>
                    if alive q
                    then tallyVotes ps (S i) vs' (alter Z.succ (Z.to_nat t) voteCounts)
                    else tallyVotes ps (S i) vs' voteCounts
                end
            end
          else tallyVotes ps (S i) vs' voteCounts
      end
  end.

(** TICK, third pass: every living, placed player gains [1 + juryAP]. *)
Fixpoint grantAP (voteCounts : list Z) (i : nat) (ps : list GamePlayerState)
    : list GamePlayerState :=
  match ps with
  | [] => []
  | p :: ps' =>
      (if negb (alive p) || negb (placed p) then p
       else with_ap (ap p + (1 + default 0 (voteCounts !! i) / 3)) p)
      :: grantAP voteCounts (S i) ps'
  end.

Definition processTick (nextState : GameState) : result GameState :=
  let ps1 := map tickDisqualify (playerStates nextState) in
  match tallyVotes ps1 0 (votes nextState) (map (fun _ => 0) ps1) with
  | Throw e => Throw e
  | Ok voteCounts =>
      let ps2 := grantAP voteCounts 0 ps1 in
      Ok (evalWinner
            (with_votes (map (fun _ => None) (votes nextState))
               (with_playerStates ps2 nextState)))
  end.

(** [pState.f = ...]: a write through the alias [pState = state.playerStates[player]]
    changes player [player] of the *input* state object. *)
Definition mutate (player : Z) (f : GamePlayerState -> GamePlayerState) (s : GameState)
    : GameState :=
  with_playerStates (alter f (Z.to_nat player) (playerStates s)) s.

(** A write to [t = nextState.playerStates[target]] changes the fresh copy. *)
Definition updateTarget (target : Z) (f : GamePlayerState -> GamePlayerState)
    (next : GameState) : GameState :=
  with_playerStates (alter f (Z.to_nat target) (playerStates next)) next.

(** [nextState.boardState[row][col] = v], for a [row] that exists. *)
Definition setCell (row col : Z) (v : option Z) (next : GameState) : GameState :=
  with_boardState
    (alter (fun r => js_set r col v) (Z.to_nat row) (boardState next)) next.

(** [nextState.boardState[row][col] != null]; the read of a missing row is a
    TypeError, a missing cell is [undefined]. *)
Definition occupied (r : list (option Z)) (col : Z) : bool :=
  match js_get r col with
  | Some (Some _) => true
  | _ => false
  end.

Definition cellOccupied (next : GameState) (row col : Z) : result bool :=
  match js_get (boardState next) row with
  | None => Throw TypeError
  | Some r => Ok (occupied r col)
  end.

Definition outOfBounds (next : GameState) (row col : Z) : bool :=
  (row >=? height (dimensions (config next)) - 1)
  || (col >=? width (dimensions (config next)))
  || (row <? 0)
  || (col <? 0).

(** [Math.max(Math.abs(t.locCol - pState.locCol), Math.abs(t.locRow - pState.locCol))] *)
Definition distance (t pState : GamePlayerState) : Z :=
  Z.max (Z.abs (locCol t - locCol pState)) (Z.abs (locRow t - locCol pState)).

(** [typeof target !== "number" || target < 0 || target > state.playerStates.length - 1] *)
Definition badTarget (s : GameState) (target : Z) : bool :=
  (target <? 0) || (target >? Z.of_nat (length (playerStates s)) - 1).

Definition insufficientAP : exn :=
  Error "invalid action: player does not have sufficient AP".

(** The transitions of the player events.  [s] is the input state, [next] its
    fresh copy and [pState] the player object of [s] at index [player].  The
    answer pairs the contents of the input state object after the call with
    what the call returns or throws. *)

Definition processPlace (s next : GameState) (pState : GamePlayerState)
    (player row col : Z) : GameState * result GameState :=
  if placed pState then (s, Throw (Error "invalid action: player already placed"))
  else if ap pState <? 1 then (s, Throw insufficientAP)
  else if outOfBounds next row col
  then (s, Throw (Error "invalid placement: out of bounds"))
  else
    match cellOccupied next row col with
    | Throw e => (s, Throw e)
    | Ok true => (s, Throw (Error "invalid placement: space already occupied"))
    | Ok false =>
        (mutate player (with_placed true) s,
         Ok (evalWinner (setCell row col (Some player) next)))
    end.

Definition processMove (s next : GameState) (pState : GamePlayerState)
    (player : Z) (dir : string) : GameState * result GameState :=
  if negb (placed pState)
  then (s, Throw (Error "invalid movement: player has not yet placed"))
  else if negb (alive pState)
  then (s, Throw (Error "invalid movement: player has already died"))
  else if ap pState <? 1 then (s, Throw insufficientAP)
  else
    match getVector dir with
    | None => (s, Throw (Error "invalid movement"))
    | Some (dr, dc) =>
        let row := locRow pState + dr in
        let col := locCol pState + dc in
        if outOfBounds next row col
        then (s, Throw (Error "invalid movement: out of bounds"))
        else
          match cellOccupied next row col with
          | Throw e => (s, Throw e)
          | Ok true => (s, Throw (Error "invalid movement: space already occupied"))
          | Ok false =>
              let s1 := mutate player (fun p => with_ap (ap p - 1) p) s in
              match js_get (boardState next) (locRow pState) with
              | None => (s1, Throw TypeError)
              | Some _ =>
                  let next1 := setCell (locRow pState) (locCol pState) None next in
                  let next2 := setCell row col (Some player) next1 in
                  (mutate player (with_loc row col) s1, Ok (evalWinner next2))
              end
          end
    end.

Definition processFire (s next : GameState) (pState : GamePlayerState)
    (player target : Z) : GameState * result GameState :=
  if ap pState <? 1 then (s, Throw insufficientAP)
  else if badTarget s target
  then (s, Throw (Error "invalid action: invalid player target"))
  else
    match js_get (playerStates next) target with
    | None => (s, Throw TypeError)
    | Some t =>
        if distance t pState >? range pState
        then (s, Throw (Error "invalid action: target out of range"))
        else
          let next1 := updateTarget target (fun t => with_hp (hp t - 1) t) next in
          let s1 := mutate player (fun p => with_ap (ap p - 1) p) s in
          if hp t - 1 <=? 0 then
            let next2 := updateTarget target (with_alive false) next1 in
            (* the result of nextState.votes.map(...) is dropped *)
            let s2 := mutate player (fun p => with_ap (ap p + ap t) p) s1 in
            let next3 := updateTarget target (with_ap 0) next2 in
            (s2, Ok (evalWinner next3))
          else (s1, Ok (evalWinner next1))
    end.

Definition processGiftAP (s next : GameState) (pState : GamePlayerState)
    (player target : Z) : GameState * result GameState :=
  if ap pState <? 1 then (s, Throw insufficientAP)
  else if badTarget s target
  then (s, Throw (Error "invalid action: invalid player target"))
  else
    match js_get (playerStates next) target with
    | None => (s, Throw TypeError)
    | Some t =>
        if negb (alive t)
        then (s, Throw (Error "invalid action: target is already dead"))
        else if distance t pState >? range pState
        then (s, Throw (Error "invalid action: target out of range"))
        else
          let next1 := updateTarget target (fun t => with_ap (ap t + 1) t) next in
          let s1 := mutate player (fun p => with_ap (ap p - 1) p) s in
          (s1, Ok (evalWinner next1))
    end.

Definition processGiftHP (s next : GameState) (pState : GamePlayerState)
    (player target : Z) : GameState * result GameState :=
  if hp pState <? 1 then (s, Throw insufficientAP)
  else if badTarget s target
  then (s, Throw (Error "invalid action: invalid player target"))
  else
    match js_get (playerStates next) target with
    | None => (s, Throw TypeError)
    | Some t =>
        if distance t pState >? range pState
        then (s, Throw (Error "invalid action: target out of range"))
        else
          let next1 := updateTarget target (fun t => with_hp (hp t + 1) t) next in
          let s1 := mutate player (fun p => with_hp (hp p - 1) p) s in
          let s2 := if hp pState - 1 <=? 0 then mutate player (with_alive false) s1 else s1 in
          (s2, Ok (evalWinner next1))
    end.

Definition processUpgrade (s next : GameState) (pState : GamePlayerState)
    (player : Z) : GameState * result GameState :=
  if ap pState <? 3 then (s, Throw insufficientAP)
  else
    (mutate player (fun p => with_range (range p + 1) (with_ap (ap p - 3) p)) s,
     Ok (evalWinner next)).

(** [!Number.isInteger(target) || Number.isNaN(target) || target < 0 ||
     target < state.playerStates.length - 1] *)
Definition badVoteTarget (s : GameState) (target : Z) : bool :=
  (target <? 0) || (target <? Z.of_nat (length (playerStates s)) - 1).

Definition processVote (s next : GameState) (pState : GamePlayerState)
    (player target : Z) : GameState * result GameState :=
  if alive pState
  then (s, Throw (Error "invalid action: you may only vote when dead"))
  else
    match js_get (votes next) player with
    | Some (Some _) =>
        (s, Throw (Error "invalid action: you may only vote once per round"))
    | _ =>
        if badVoteTarget s target
        then (s, Throw (Error "invalid action: invalid target player"))
        else (s, Ok (evalWinner (with_votes (js_set (votes next) player (Some target)) next)))
    end.

Definition eventPlayer (e : GameEvent) : option Z :=
  match e with
  | UPGRADE _ p | PLACE _ p _ _ | MOVE _ p _ | FIRE _ p _
  | VOTE _ p _ | GIFT_AP _ p _ | GIFT_HP _ p _ => Some p
  | TICK _ => None
  end.

(** [processEvent event state]: the first component is the input state object
    as the call leaves it, the second what the call returns or throws.  The
    event type of the source is closed, so its last branch ("invalid action
    type") has no event to reach it. *)
Definition processEvent (event : GameEvent) (s : GameState)
    : GameState * result GameState :=
  match winner s with
  | Some _ => (s, Throw (Error "game already complete"))
  | None =>
      if str_le (submittedAt event) (startAt (config s))
      then (s, Throw (Error "game has not yet started"))
      else
        let nextState := cloneState s in
        match eventPlayer event with
        | None => (s, processTick nextState)
        | Some player =>
            match js_get (playerStates s) player with
            | None => (s, Throw TypeError)
            | Some pState =>
                if disqualified pState
                then (s, Throw (Error "invalid action: player has been disqualified"))
                else
                  match event with
                  | PLACE _ _ row col => processPlace s nextState pState player row col
                  | MOVE _ _ dir => processMove s nextState pState player dir
                  | FIRE _ _ target => processFire s nextState pState player target
                  | GIFT_AP _ _ target => processGiftAP s nextState pState player target
                  | GIFT_HP _ _ target => processGiftHP s nextState pState player target
                  | UPGRADE _ _ => processUpgrade s nextState pState player
                  | VOTE _ _ target => processVote s nextState pState player target
                  | TICK _ => (s, Throw (Error "invalid action: invalid action type"))
                  end
            end
        end
  end.

(** [state.winner != null] *)
Definition decided (s : GameState) : bool :=
  match winner s with Some _ => true | None => false end.

(** The state returned by a successful call. *)
Definition returned (r : GameState * result GameState) : option GameState :=
  match r.2 with Ok s' => Some s' | Throw _ => None end.

(** ** The process: initProcess, processEvents, calculateState *)

Definition initProcess (s : GameState) : GameProcessState :=
  {| state := s; events := []; updatedAt := startAt (config s) |}.

(** [[...events].map((e) => ({ ...e })).sort((a, b) => a.submittedAt < b.submittedAt ? -1 : 1)].
    The comparator never answers 0, so on events with equal instants the order
    ECMAScript promises is left to the engine; the embedding follows the
    binary-insertion pass of the engines in use, which puts each element after
    the last one it is not smaller than (a stable sort). *)
Fixpoint insertEvent (e : GameEvent) (sorted : list GameEvent) : list GameEvent :=
  match sorted with
  | [] => [e]
  | x :: rest =>
      if str_lt (submittedAt e) (submittedAt x) then e :: x :: rest
      else x :: insertEvent e rest
  end.

Definition sortEvents (evs : list GameEvent) : list GameEvent :=
  foldl (fun acc e => insertEvent e acc) [] evs.

Section Replay.

(** The schedule evaluator is outside of the repository.
    [parseExpression expr currentDate tz n] is the instant, as an ISO string,
    that the [n]-th call of [next()] gives on the iterator opened by
    [parseExpression(expr, { currentDate, tz, iterator: true })]. *)
Variable parseExpression : string -> string -> string -> nat -> string.

Definition processEvents (process : GameProcessState) (evs : list GameEvent)
    : result GameProcessState :=
  if (length evs =? 0)%nat then Ok process
  else
    let sorted := sortEvents (map (fun e => e) evs) in
    match sorted with
    | [] => Throw TypeError
    | first :: _ =>
        if str_le (submittedAt first) (updatedAt process)
        then Throw (Error "invalid events: retroactive events detected")
        else
          let nextProcess :=
            {| state := state process;
               events := events process ++ sorted;
               updatedAt := updatedAt process |} in
          let interval :=
            parseExpression (turnInterval (config (state process)))
              (updatedAt process) (turnIntervalTZ (config (state process))) in
          Ok process
    end.

(** [currentState] is first the stored object [process.state] itself and,
    from the first applied event on, a fresh object. *)
Inductive cursor :=
| Stored
| Fresh (s : GameState).

Definition current (stored : GameState) (c : cursor) : GameState :=
  match c with Stored => stored | Fresh s => s end.

(** What a run of [calculateState] leaves behind: the contents of the
    stored object [process.state], the events it applied, in order (a ghost
    of the embedding), and what the call returns or throws. *)
Record outcome := {
  stored_after : GameState;
  applied : list GameEvent;
  answer : result GameState;
}.

(** One turn of the [while (true)] loop per unit of fuel: [i] is the cursor
    into the log and [k] the number of instants pulled from the schedule
    before [nextTick], so that [nextTick = interval k]. *)
Fixpoint replay (fuel : nat) (process : GameProcessState) (until : string)
    (interval : nat -> string) (i k : nat) (stored : GameState) (cur : cursor)
    (trace : list GameEvent) : option outcome :=
  match fuel with
  | O => None
  | S fuel' =>
      let nextTick := interval k in
      let '(currentEvent, i', k') :=
        match events process !! i with
        | Some e =>
            if str_le (submittedAt e) nextTick
            then (TICK nextTick, i, S k)
            else (e, S i, k)
        | None => (TICK nextTick, i, S k)
        end in
      if str_ge (updatedAt process) (submittedAt currentEvent)
      then replay fuel' process until interval i' k' stored cur trace
      else if str_gt (submittedAt currentEvent) until
              || decided (current stored cur)
      then Some {| stored_after := stored; applied := trace;
                   answer := Ok (current stored cur) |}
      else
        let '(mutated, r) := processEvent currentEvent (current stored cur) in
        let stored' := match cur with Stored => mutated | Fresh _ => stored end in
        match r with
        | Throw e =>
            Some {| stored_after := stored'; applied := trace; answer := Throw e |}
        | Ok next =>
            replay fuel' process until interval i' k' stored' (Fresh next)
              (trace ++ [currentEvent])
        end
  end.

(** [calculateState(at, process)], [until] being [at.toISOString()]. *)
Definition calculateState (fuel : nat) (until : string) (process : GameProcessState)
    : option outcome :=
  let interval :=
    parseExpression (turnInterval (config (state process)))
      (startAt (config (state process))) (turnIntervalTZ (config (state process))) in
  replay fuel process until interval 0 0 (state process) Stored [].

End Replay.

(** The event the loop picks at cursor [i] with [nextTick = interval k], and
    the cursors after the pick. *)
Definition pick (process : GameProcessState) (interval : nat -> string) (i k : nat)
    : GameEvent * nat * nat :=
  match events process !! i with
  | Some e =>
      if str_le (submittedAt e) (interval k)
      then (TICK (interval k), i, S k)
      else (e, S i, k)
  | None => (TICK (interval k), i, S k)
  end.

(** [x] is submitted no later than [y]. *)
Definition notLater (x y : GameEvent) : Prop :=
  str_le (submittedAt x) (submittedAt y) = true.


(** ** Reachability *)

(** [step s s']: some event applied to [s] succeeds and returns [s']. *)
Definition step (s s' : GameState) : Prop :=
  exists e, (processEvent e s).2 = Ok s'.

(** States reachable from [s0] are [rtc step s0]; those produced by at least
    one successful transition are [tc step s0]. *)

(** A state as [initGame] makes it: undecided, every player untouched, and no
    more vote slots than players. *)
Definition pristine (s : GameState) : Prop :=
  winner s = None
  /\ Forall (fun p => p = initPlayerState) (playerStates s)
  /\ length (votes s) = length (playerStates s).


(** ** Fixtures: the configuration of the repository's test and its schedule *)

(** "0 12 * * 1-5" in Asia/Seoul, opened at 2023-09-08T04:00:00.000Z: noon of
    every working day, Seoul time. *)
Definition weekdayNoonSeoul (expr currentDate tz : string) (n : nat) : string :=
  nth n ["2023-09-11T03:00:00.000Z"; "2023-09-12T03:00:00.000Z";
         "2023-09-13T03:00:00.000Z"; "2023-09-14T03:00:00.000Z";
         "2023-09-15T03:00:00.000Z"; "2023-09-18T03:00:00.000Z";
         "2023-09-19T03:00:00.000Z"; "2023-09-20T03:00:00.000Z"]
        "2023-09-21T03:00:00.000Z".

Definition testConfig : GameConfig :=
  {| players := [ {| id := "1" |}; {| id := "2" |} ];
     dimensions := {| height := 6; width := 6 |};
     startAt := "2023-09-08T04:00:00.000Z";
     turnInterval := "0 12 * * 1-5";
     turnIntervalTZ := "Asia/Seoul" |}.

Definition testGame : GameState :=
  {| config := testConfig;
     playerStates := [initPlayerState; initPlayerState];
     boardState := replicate 6 (replicate 6 None);
     votes := [None; None];
     winner := None |}.

(** The state after the first tick of the test game. *)
Definition testGameOver : GameState :=
  let out := with_disqualified true (with_alive false initPlayerState) in
  {| config := testConfig;
     playerStates := [out; out];
     boardState := replicate 6 (replicate 6 None);
     votes := [None; None];
     winner := Some (-1) |}.

(** A game in progress on the same board: three tanks in the field. *)
Definition tank (row col range_ ap_ hp_ : Z) : GamePlayerState :=
  {| placed := true; alive := true; disqualified := false;
     locRow := row; locCol := col; range := range_; ap := ap_; hp := hp_ |}.

Definition emptyRow : list (option Z) := replicate 6 None.

Definition midConfig : GameConfig :=
  {| players := [ {| id := "1" |}; {| id := "2" |}; {| id := "3" |} ];
     dimensions := {| height := 6; width := 6 |};
     startAt := "2023-09-08T04:00:00.000Z";
     turnInterval := "0 12 * * 1-5";
     turnIntervalTZ := "Asia/Seoul" |}.

Definition midGame : GameState :=
  {| config := midConfig;
     playerStates := [tank 2 2 2 3 3; tank 2 3 2 2 1; tank 4 4 2 1 3];
     boardState :=
       [emptyRow; emptyRow;
        [None; None; Some 0; Some 1; None; None];
        emptyRow;
        [None; None; None; None; Some 2; None];
        emptyRow];
     votes := [None; None; None];
     winner := None |}.

(** A dead voter in a game that is still on: the first of three tanks has
    been shot. *)
Definition juryGame : GameState :=
  {| config := midConfig;
     playerStates := [with_alive false (tank 2 2 2 0 0); tank 2 3 2 2 1; tank 4 4 2 1 3];
     boardState := boardState midGame;
     votes := [None; None; None];
     winner := None |}.

(** Three players in the lobby of a running game; the first has one action
    point and no tank on the board yet. *)
Definition lobbyGame : GameState :=
  {| config := midConfig;
     playerStates := [with_ap 1 (with_hp 3 initPlayerState); tank 2 3 2 2 1; tank 4 4 2 1 3];
     boardState :=
       [emptyRow; emptyRow;
        [None; None; None; Some 1; None; None];
        emptyRow;
        [None; None; None; None; Some 2; None];
        emptyRow];
     votes := [None; None; None];
     winner := None |}.

(** Four players: three tanks in the field, the second one hit point from
    death, and a dead juror who has voted for the second tank this round. *)
Definition votedGame : GameState :=
  {| config :=
       {| players := [ {| id := "1" |}; {| id := "2" |};
                       {| id := "3" |}; {| id := "4" |} ];
          dimensions := {| height := 6; width := 6 |};
          startAt := "2023-09-08T04:00:00.000Z";
          turnInterval := "0 12 * * 1-5";
          turnIntervalTZ := "Asia/Seoul" |};
     playerStates := [tank 2 2 2 3 3; tank 2 3 2 2 1; tank 4 4 2 1 3;
                      with_alive false (tank 0 0 2 0 0)];
     boardState := boardState midGame;
     votes := [None; None; None; Some 1];
     winner := None |}.

(** One logged UPGRADE of the first tank, submitted an hour before the first
    scheduled tick (03:00Z on 2023-09-11). *)
Definition earlyProcess : GameProcessState :=
  {| state := midGame;
     events := [UPGRADE "2023-09-11T02:00:00.000Z" 0];
     updatedAt := "2023-09-08T04:00:00.000Z" |}.

(** The same, submitted two hours after that tick. *)
Definition lateProcess : GameProcessState :=
  {| state := midGame;
     events := [UPGRADE "2023-09-11T05:00:00.000Z" 0];
     updatedAt := "2023-09-08T04:00:00.000Z" |}.

From Stdlib Require DecimalString.

(** ** Definitions for the further properties *)

(** The player an event aims at. *)
Definition eventTarget (e : GameEvent) : option Z :=
  match e with
  | FIRE _ _ t | GIFT_AP _ _ t | GIFT_HP _ _ t => Some t
  | _ => None
  end.

Definition is_move (e : GameEvent) : bool :=
  match e with MOVE _ _ _ => true | _ => false end.

Definition touchesBoard (e : GameEvent) : bool :=
  match e with PLACE _ _ _ _ | MOVE _ _ _ => true | _ => false end.

Definition is_vote (e : GameEvent) : bool :=
  match e with VOTE _ _ _ => true | _ => false end.


(** The jury rule in the words of the game: the vote in slot [i] counts for
    player [t] when the voter is dead without being disqualified, the vote
    names [t], and [t] is alive. *)
Definition countsFor (ps : list GamePlayerState) (i : nat) (v : option Z) (t : Z) : bool :=
  match ps !! i, v with
  | Some voter, Some t' =>
      negb (disqualified voter) && negb (alive voter) && (t' =? t)
      && from_option alive false (js_get ps t')
  | _, _ => false
  end.

(** The number of votes of the slots [vs], the first of which is slot [i],
    that count for [t]. *)
Fixpoint juryVotes (ps : list GamePlayerState) (i : nat) (vs : list (option Z)) (t : Z) : Z :=
  match vs with
  | [] => 0
  | v :: vs' => (if countsFor ps i v t then 1 else 0) + juryVotes ps (S i) vs' t
  end.

(** What a tick makes of one player, [bonus] being the jury votes for it. *)
Definition afterTick (bonus : Z) (p : GamePlayerState) : GamePlayerState :=
  if placed p then
    if alive p then with_ap (ap p + (1 + bonus / 3)) p else p
  else with_disqualified true (with_alive false p).

(** Every vote slot belongs to a player and names nobody or a player. *)
Definition votesInRange (s : GameState) : Prop :=
  (length (votes s) <= length (playerStates s))%nat
  /\ Forall (fun v => match v with
                      | None => True
                      | Some t => 0 <= t < Z.of_nat (length (playerStates s))
                      end) (votes s).

(** Tick time in a game of six: two tanks in the field, one player who never
    placed, and three dead jurors who all voted for the second tank. *)
Definition juryOfThree : GameState :=
  {| config := midConfig;
     playerStates :=
       [tank 2 2 2 3 3; tank 2 3 2 2 1; with_ap 5 initPlayerState;
        with_alive false (tank 0 0 2 0 0); with_alive false (tank 0 1 2 0 0);
        with_alive false (tank 0 2 2 0 0)];
     boardState := boardState midGame;
     votes := [None; None; None; Some 1; Some 1; Some 1];
     winner := None |}.

(** [keeps p p']: what is disqualified, dead or placed in [p] still is in [p']. *)
Definition keeps (p p' : GamePlayerState) : Prop :=
  (disqualified p = true -> disqualified p' = true)
  /\ (alive p = false -> alive p' = false)
  /\ (placed p = true -> placed p' = true).

Definition allKeep (ps ps' : list GamePlayerState) : Prop :=
  forall (j : nat) p, ps !! j = Some p -> exists p', ps' !! j = Some p' /\ keeps p p'.

(** The instants [calculateState] pulls from the schedule of a process, in
    order. *)
Definition scheduleOf (parseExpression : string -> string -> string -> nat -> string)
    (process : GameProcessState) : nat -> string :=
  parseExpression (turnInterval (config (state process)))
    (startAt (config (state process))) (turnIntervalTZ (config (state process))).

(** An event the replay may apply: after the last-processed instant, not
    after the query instant, and either logged or a tick of the schedule. *)
Definition inWindow (process : GameProcessState) (until : string)
    (interval : nat -> string) (e : GameEvent) : Prop :=
  str_ge (updatedAt process) (submittedAt e) = false
  /\ str_gt (submittedAt e) until = false
  /\ (e ∈ events process \/ exists n, e = TICK (interval n)).

(** ** Composable event handlers (the [Processor] class, [xf] and [merge])

    An event is any value of a type [E] ([unknown] in the source) and a state
    a value of [U].  The methods of a handler are functions that return or
    throw. *)
Module Handlers.
Section Handlers.

Context {E U : Type}.

(** [x] first, then [k] on what it returned; an exception of [x] goes through. *)
Definition bind {A B : Type} (x : result A) (k : A -> result B) : result B :=
  match x with
  | Ok a => k a
  | Throw e => Throw e
  end.

Record EventHandler := {
  isInput : E -> result bool;
  apply : E -> U -> result U;
  revert : E -> U -> result U;
}.

Record Transform := {
  transform_apply : U -> result U;
  transform_revert : U -> result U;
}.

(** [new Processor(handler)]; its three methods hand over to the handler,
    called as methods of the handler. *)
Record Processor := { handler : EventHandler }.

Definition Processor_isInput (this : Processor) (v : E) : result bool :=
  isInput (handler this) v.

Definition Processor_apply (this : Processor) (e : E) (s : U) : result U :=
  apply (handler this) e s.

Definition Processor_revert (this : Processor) (e : E) (s : U) : result U :=
  revert (handler this) e s.

(** A processor used where an [EventHandler] is expected: its methods. *)
Definition asHandler (p : Processor) : EventHandler :=
  {| isInput := Processor_isInput p;
     apply := Processor_apply p;
     revert := Processor_revert p |}.

(** [this.add(p)] *)
Definition add (this p : Processor) : Processor :=
  {| handler :=
       {| isInput := fun v =>
            bind (Processor_isInput p v) (fun b =>
              if b then Ok true else Processor_isInput this v);
          apply := fun e s =>
            bind (Processor_isInput p e) (fun b =>
              if b then Processor_apply p e s else Processor_apply this e s);
          revert := fun e s =>
            bind (Processor_isInput p e) (fun b =>
              if b then Processor_revert p e s else Processor_revert this e s) |} |}.

(** [xf(p, transform)].  Its handler gets [p.isInput], the method taken off
    [p]: called as a method of the handler object, [this.handler] is
    [undefined] there and reading [isInput] of it is a TypeError. *)
Definition xf (p : Processor) (transform : Transform) : Processor :=
  {| handler :=
       {| isInput := fun _ => Throw TypeError;
          apply := fun e s => bind (Processor_apply p e s) (transform_apply transform);
          revert := fun e s =>
            bind (transform_revert transform s) (fun s' => Processor_revert p e s') |} |}.

(** [merge(left, right)] *)
Definition merge (left right : EventHandler) : Processor :=
  {| handler :=
       {| isInput := fun v =>
            bind (isInput left v) (fun b => if b then Ok true else isInput right v);
          apply := fun event s =>
            bind (isInput left event) (fun b =>
              if b then apply left event s else apply right event s);
          revert := fun event s =>
            bind (isInput left event) (fun b =>
              if b then revert left event s else revert right event s) |} |}.

(** [h] undoes with [revert] what it did with [apply] to the events [accepts]
    holds of. *)
Definition reverts (accepts : E -> Prop) (h : EventHandler) : Prop :=
  forall e s s', accepts e -> apply h e s = Ok s' -> revert h e s' = Ok s.

End Handlers.
End Handlers.

(** Handlers on a counter, for the examples: events are words. *)
Definition wordHandler (word : string) (step : Z) : @Handlers.EventHandler string Z :=
  {| Handlers.isInput := fun v => Ok (String.eqb v word);
     Handlers.apply := fun _ s => Ok (s + step);
     Handlers.revert := fun _ s => Ok (s - step) |}.

Definition negation : @Handlers.Transform Z :=
  {| Handlers.transform_apply := fun s => Ok (- s);
     Handlers.transform_revert := fun s => Ok (- s) |}.

(** ** Validation rules ([rules.ts])

    A rule is an object with a [validator]: a function from a value to
    [null] or a list of messages.  Objects with fields are records here, so
    [field] takes the projection next to the name of the field; [eq] is the
    one of strings; numbers being integers, [int] and [str] accept whatever
    the types of the embedding let through. *)
Module Rules.

Record Rule (T : Type) := { validator : T -> option (list string) }.
Arguments validator {T} _ _.

(** [rule.validate(v)]: what it throws, or that it returns.  An array is
    truthy, the empty one too. *)
Definition validate {T} (this : Rule T) (v : T) : list string + unit :=
  match validator this v with
  | Some err => inl err
  | None => inr tt
  end.

Definition errMap {T} (f : option (list string) -> option (list string)) (this : Rule T)
    : Rule T :=
  {| validator := fun v => f (validator this v) |}.

(** [err ? err.map((e) => label + e) : null] *)
Definition label (prefix : string) (err : option (list string)) : option (list string) :=
  match err with
  | Some errs => Some (List.map (fun e => prefix ++ e) errs)
  | None => None
  end.

Definition named {T} (name : string) (rule : Rule T) : Rule T :=
  errMap (label ("[named: " ++ name ++ "]: ")) rule.

(** The loop of [many]: [errs.push(...err)] for every rule that answers. *)
Definition many {T} (rules : list (Rule T)) : Rule T :=
  {| validator := fun v =>
       let errs :=
         foldl (fun errs r =>
                  match validator r v with
                  | Some err => (errs ++ err)%list
                  | None => errs
                  end) [] rules in
       if (0 <? length errs)%nat then Some errs else None |}.

Definition map {T V} (f : T -> V) (rule : Rule V) : Rule T :=
  {| validator := fun v => validator rule (f v) |}.

Definition dquote : string := String (Ascii.ascii_of_nat 34) "".

(** [`${n}`] for an integer [n] (below 10^21 in absolute value). *)
Definition show (n : Z) : string := DecimalString.NilZero.string_of_int (Z.to_int n).

Definition eq (t : string) : Rule string :=
  {| validator := fun v =>
       if String.eqb v t then None
       else Some ["eq: must equal " ++ dquote ++ t ++ dquote ++ ", got: "
                  ++ dquote ++ v ++ dquote] |}.

Definition min (t : Z) : Rule Z :=
  {| validator := fun v => if v >=? t then None else Some ["min: invalid value"] |}.

Definition max (t : Z) : Rule Z :=
  {| validator := fun v =>
       if v <=? t then None
       else Some ["max: value out of bounds, expected: <= " ++ show t
                  ++ ", got: " ++ show v] |}.

Definition str : Rule string := {| validator := fun _ => None |}.

Definition int : Rule Z := {| validator := fun _ => None |}.

Definition nop {T} : Rule T := {| validator := fun _ => None |}.

Definition chain {T} (f : T -> Rule T) : Rule T :=
  {| validator := fun v => validator (f v) v |}.

Definition field {T K} (k : string) (get : T -> K) (rule : Rule K) : Rule T :=
  errMap (label ("[field: " ++ k ++ "]: ")) (map get rule).

(** The rule at the end of the file and the value it is tried on. *)
Record A := { arr : list string; test : string; n : Z }.

Definition x : Rule A :=
  named "A"
    (chain (fun v =>
       many [field "n" n (many [int; min 1; max (Z.of_nat (length (arr v)) - 1)]);
             field "test" test (many [eq "asdf"])])).

Definition res : option (list string) :=
  validator x {| test := "asf"; n := 2; arr := ["a"; "b"] |}.

(** The messages of the rules on [v], one after the other. *)
Definition allErrors {T} (rules : list (Rule T)) (v : T) : list string :=
  concat (List.map (fun r => default [] (validator r v)) rules).

End Rules.

(** ** Basic facts *)

Lemma copy_players (l : list Player) :
  map (fun p => {| id := id p |}) l = l.
Proof. induction l as [|[i] l IH]; simpl; [done | by rewrite IH]. Qed.

Lemma copy_board (b : list (list (option Z))) :
  map (fun row => map (fun value => value) row) b = b.
Proof.
  induction b as [|r b IH]; simpl; [done |].
  rewrite IH. f_equal. apply map_id.
Qed.

(** The deep copy has the contents of its source, and no winner. *)
Lemma cloneState_spec (s : GameState) : cloneState s = with_winner None s.
Proof.
  destruct s as [[pl [h w] st ti tz] ps b v win]. unfold cloneState, with_winner. simpl.
  rewrite copy_players, copy_board, !map_id. reflexivity.
Qed.

Lemma cloneState_undecided (s : GameState) : winner s = None -> cloneState s = s.
Proof.
  intros H. rewrite cloneState_spec. destruct s; simpl in *. by subst.
Qed.

Lemma decided_Some (s : GameState) : decided s = true <-> exists w, winner s = Some w.
Proof.
  unfold decided. destruct (winner s); split; eauto; try done. by intros [? ?].
Qed.

Lemma processEvent_decided (e : GameEvent) (s : GameState) :
  decided s = true -> processEvent e s = (s, Throw (Error "game already complete")).
Proof.
  intros [w Hw]%decided_Some. unfold processEvent. by rewrite Hw.
Qed.

Lemma processEvent_not_started (e : GameEvent) (s : GameState) :
  str_le (submittedAt e) (startAt (config s)) = true ->
  exists x, processEvent e s = (s, Throw x).
Proof.
  intros H. unfold processEvent. destruct (winner s); [eauto |]. rewrite H. eauto.
Qed.

(** Reads and writes of arrays. *)
Lemma js_get_lookup {A} (a : list A) (i : Z) (x : A) :
  js_get a i = Some x <-> 0 <= i /\ a !! Z.to_nat i = Some x.
Proof.
  unfold js_get. destruct (Z.ltb_spec i 0).
  - split; [done | intros [? _]; lia].
  - split; [intros ?; split; [lia | done] | by intros [_ ?]].
Qed.

Lemma js_get_set {A} (a : list (option A)) (i : Z) (v : option A) :
  0 <= i -> js_get (js_set a i v) i = Some v.
Proof.
  intros Hi. unfold js_get, js_set.
  destruct (Z.ltb_spec i 0); [lia |].
  destruct (Nat.ltb_spec (Z.to_nat i) (length a)).
  - by apply list_lookup_insert_eq.
  - rewrite lookup_app_r by lia.
    rewrite lookup_app_r by (rewrite length_replicate; lia).
    rewrite length_replicate.
    replace (Z.to_nat i - length a - (Z.to_nat i - length a))%nat with 0%nat by lia.
    reflexivity.
Qed.

(** ** The replay loop on a decided game *)

Lemma replay_unfold fuel process until interval i k stored cur trace :
  replay (S fuel) process until interval i k stored cur trace =
  let '(currentEvent, i', k') := pick process interval i k in
  if str_ge (updatedAt process) (submittedAt currentEvent)
  then replay fuel process until interval i' k' stored cur trace
  else if str_gt (submittedAt currentEvent) until || decided (current stored cur)
  then Some {| stored_after := stored; applied := trace;
               answer := Ok (current stored cur) |}
  else
    let '(mutated, r) := processEvent currentEvent (current stored cur) in
    let stored' := match cur with Stored => mutated | Fresh _ => stored end in
    match r with
    | Throw e => Some {| stored_after := stored'; applied := trace; answer := Throw e |}
    | Ok next =>
        replay fuel process until interval i' k' stored' (Fresh next)
          (trace ++ [currentEvent])
    end.
Proof. reflexivity. Qed.

(** The pick either takes the next logged event or the next tick. *)
Lemma pick_cases process interval i k :
  (exists e, events process !! i = Some e /\ pick process interval i k = (e, S i, k))
  \/ pick process interval i k = (TICK (interval k), i, S k).
Proof.
  unfold pick. destruct (events process !! i) as [e|] eqn:He; [| by right].
  destruct (str_le (submittedAt e) (interval k)); [by right | left; eauto].
Qed.

(** On a decided state the loop can only skip or stop: it never applies. *)
Lemma replay_decided fuel process until interval stored cur trace :
  decided (current stored cur) = true ->
  forall i k,
    replay fuel process until interval i k stored cur trace = None
    \/ replay fuel process until interval i k stored cur trace
       = Some {| stored_after := stored; applied := trace;
                 answer := Ok (current stored cur) |}.
Proof.
  intros Hd. induction fuel as [|fuel IH]; intros i k; [by left |].
  rewrite replay_unfold.
  destruct (pick process interval i k) as [[ev i'] k'].
  destruct (str_ge (updatedAt process) (submittedAt ev)); [apply IH |].
  rewrite Hd, orb_true_r. by right.
Qed.

(** And it does stop, as soon as the schedule passes [updatedAt]. *)
Lemma replay_decided_stops process until interval stored cur trace K :
  decided (current stored cur) = true ->
  str_ge (updatedAt process) (interval K) = false ->
  forall fuel i k,
    (k <= K)%nat ->
    (length (events process) - i + (K - k) < fuel)%nat ->
    replay fuel process until interval i k stored cur trace
    = Some {| stored_after := stored; applied := trace;
              answer := Ok (current stored cur) |}.
Proof.
  intros Hd HK. induction fuel as [|fuel IH]; intros i k Hk Hfuel; [lia |].
  rewrite replay_unfold.
  destruct (pick_cases process interval i k) as [(e & He & ->) | ->].
  - apply lookup_lt_Some in He.
    destruct (str_ge (updatedAt process) (submittedAt e)).
    + apply IH; lia.
    + by rewrite Hd, orb_true_r.
  - simpl submittedAt.
    destruct (str_ge (updatedAt process) (interval k)) eqn:Hskip.
    + assert (k <> K) by (intros ->; congruence).
      apply IH; lia.
    + by rewrite Hd, orb_true_r.
Qed.

(** C9.  Once the winner is decided nothing changes the state any more:
    [processEvent] fails on every event and leaves its input as it was, the
    replay loop of [calculateState] stops without applying anything (and does
    stop, once the schedule passes the last-processed instant), and
    [processEvent] fails as well on every event that is not after
    [config.startAt]. *)
Theorem winner_closure (s : GameState) (Hs : decided s = true) :
  (forall e, processEvent e s = (s, Throw (Error "game already complete")))
  /\ (forall fuel process until interval i k stored cur trace,
        current stored cur = s ->
        replay fuel process until interval i k stored cur trace = None
        \/ replay fuel process until interval i k stored cur trace
           = Some {| stored_after := stored; applied := trace; answer := Ok s |})
  /\ (forall process until interval i k stored cur trace K fuel,
        current stored cur = s ->
        str_ge (updatedAt process) (interval K) = false ->
        (k <= K)%nat ->
        (length (events process) - i + (K - k) < fuel)%nat ->
        replay fuel process until interval i k stored cur trace
        = Some {| stored_after := stored; applied := trace; answer := Ok s |})
  /\ (forall e s0,
        str_le (submittedAt e) (startAt (config s0)) = true ->
        exists x, processEvent e s0 = (s0, Throw x)).
Proof.
  split; [| split; [| split]].
  - intros e. by apply processEvent_decided.
  - intros fuel process until interval i k stored cur trace <-.
    by apply replay_decided.
  - intros process until interval i k stored cur trace K fuel <- HK Hk Hfuel.
    by apply (replay_decided_stops _ _ _ _ _ _ K).
  - intros e s0. apply processEvent_not_started.
Qed.

Lemma winner_closure_witness :
  decided testGameOver = true
  /\ processEvent (FIRE "2023-09-12T00:00:00.000Z" 0 1) testGameOver
     = (testGameOver, Throw (Error "game already complete"))
  /\ calculateState weekdayNoonSeoul 3 "2023-09-13T00:00:00.000Z"
       {| state := testGameOver;
          events := [FIRE "2023-09-12T00:00:00.000Z" 0 1];
          updatedAt := "2023-09-11T03:00:00.000Z" |}
     = Some {| stored_after := testGameOver; applied := []; answer := Ok testGameOver |}
  /\ exists x, processEvent (TICK "2023-09-08T04:00:00.000Z") testGame = (testGame, Throw x).
Proof.
  destruct (winner_closure testGameOver eq_refl) as (H1 & _ & H3 & H4).
  split; [reflexivity |].
  split; [apply H1 |].
  split; [| apply H4; reflexivity].
  unfold calculateState.
  apply (H3 _ _ _ 0%nat 0%nat _ Stored [] 1%nat); [reflexivity | reflexivity | lia | simpl; lia].
Defined.

(** ** The game that [initGame] starts *)

(** The test of the repository: two players, nobody placed; the replay up to
    2023-09-11T04:00:00.000Z applies the tick of 03:00Z and answers a state
    with [winner = -1]. *)
Example all_players_disqualified :
  initGame testConfig = Ok testGame
  /\ calculateState weekdayNoonSeoul 2 "2023-09-11T04:00:00.000Z" (initProcess testGame)
     = Some {| stored_after := testGame;
               applied := [TICK "2023-09-11T03:00:00.000Z"];
               answer := Ok testGameOver |}.
Proof. split; reflexivity. Qed.

Lemma initGame_pristine (cfg : GameConfig) (s0 : GameState) :
  initGame cfg = Ok s0 -> pristine s0.
Proof.
  unfold initGame. simpl.
  destruct (negb (valid_array_length (height (dimensions cfg)))); [done |].
  destruct ((0 <? height (dimensions cfg))
            && negb (valid_array_length (width (dimensions cfg)))); [done |].
  intros [= <-]. repeat split; simpl.
  - apply Forall_fmap, Forall_true. done.
  - by rewrite !length_map.
Qed.













(** C7.  The rule "a player with [hp <= 0] is not alive" does not hold of the
    states [initGame] produces.  On the configuration of the test game
    [initGame] returns a state whose two players both have [hp = 0] and
    [alive = true], so it is not the case that every player of that state
    whose [hp] is [<= 0] has [alive = false].  The transitions do keep the
    rule, in the state they return and in the input state object
    ([transitions_keep_hp_rule]); it is the initial state that breaks it. *)
Theorem initGame_alive_without_hp :
  initGame testConfig = Ok testGame
  /\ Forall (fun p => hp p = 0 /\ alive p = true) (playerStates testGame)
  /\ ~ Forall (fun p => hp p <= 0 -> alive p = false) (playerStates testGame).
Proof.
  split; [reflexivity |]. split.
  - by repeat constructor.
  - intros H. apply Forall_cons_1 in H as [H _]. simpl in H.
    specialize (H ltac:(done)). discriminate H.
Qed.

(** The same on every configuration with at least one player. *)
Lemma initGame_breaks_hp_rule (cfg : GameConfig) (s0 : GameState) :
  initGame cfg = Ok s0 ->
  playerStates s0 <> [] ->
  Forall (fun p => hp p = 0 /\ alive p = true) (playerStates s0)
  /\ ~ Forall (fun p => hp p <= 0 -> alive p = false) (playerStates s0).
Proof.
  intros Hinit Hne.
  destruct (initGame_pristine cfg s0 Hinit) as (_ & Hps & _).
  assert (H0 : Forall (fun p => hp p = 0 /\ alive p = true) (playerStates s0)).
  { eapply Forall_impl; [exact Hps |]. by intros p ->. }
  split; [exact H0 |]. intros Hrule.
  destruct (playerStates s0) as [|p ps]; [done |].
  apply Forall_cons_1 in H0 as [[Hhp Halive] _].
  apply Forall_cons_1 in Hrule as [Hrule _].
  rewrite Hrule in Halive; [done | lia].
Qed.

(** ** The transitions of the player events *)

Lemma evalWinner_playerStates (n : GameState) :
  playerStates (evalWinner n) = playerStates n.
Proof. unfold evalWinner. by destruct (survivors _) as [|? [|? ?]]. Qed.

Lemma evalWinner_boardState (n : GameState) :
  boardState (evalWinner n) = boardState n.
Proof. unfold evalWinner. by destruct (survivors _) as [|? [|? ?]]. Qed.

Lemma evalWinner_votes (n : GameState) : votes (evalWinner n) = votes n.
Proof. unfold evalWinner. by destruct (survivors _) as [|? [|? ?]]. Qed.

Lemma evalWinner_config (n : GameState) : config (evalWinner n) = config n.
Proof. unfold evalWinner. by destruct (survivors _) as [|? [|? ?]]. Qed.

(** A successful event of a player passed the common checks: the game
    was undecided and started, the actor exists and is not disqualified; the
    copy the transition works on has the contents of the input. *)
Lemma processEvent_player_ok (e : GameEvent) (player : Z) (s mutated next : GameState) :
  eventPlayer e = Some player ->
  processEvent e s = (mutated, Ok next) ->
  winner s = None
  /\ str_le (submittedAt e) (startAt (config s)) = false
  /\ cloneState s = s
  /\ exists pState,
       js_get (playerStates s) player = Some pState /\ disqualified pState = false.
Proof.
  intros Hp. unfold processEvent.
  destruct (winner s) eqn:Hw; [done |].
  destruct (str_le _ _); [done |]. rewrite Hp.
  destruct (js_get _ _) as [pState|]; [| done].
  destruct (disqualified pState) eqn:Hdq; [done |].
  intros _. repeat split; eauto using cloneState_undecided.
Qed.

(** C10, as the code has it.  A VOTE by a dead, non-disqualified player who
    has not voted this round fails as an invalid target exactly when
    [target < 0] or [target < playerStates.length - 1]; every other target,
    the highest-index player included, is recorded as [votes[actor]]. *)
Theorem vote_target_check (s : GameState) (t : string) (player target : Z)
    (pState : GamePlayerState)
    (Hw : winner s = None)
    (Ht : str_le t (startAt (config s)) = false)
    (Hp : js_get (playerStates s) player = Some pState)
    (Hdq : disqualified pState = false)
    (Hdead : alive pState = false)
    (Hvote : js_get (votes s) player = Some None) :
  (target < 0 \/ target < Z.of_nat (length (playerStates s)) - 1 ->
   processEvent (VOTE t player target) s
   = (s, Throw (Error "invalid action: invalid target player")))
  /\ (0 <= target /\ Z.of_nat (length (playerStates s)) - 1 <= target ->
      exists s', processEvent (VOTE t player target) s = (s, Ok s')
                 /\ js_get (votes s') player = Some (Some target)).
Proof.
  assert (Hplayer : 0 <= player) by (apply js_get_lookup in Hp; lia).
  unfold processEvent. rewrite Hw. simpl. rewrite Ht, Hp, Hdq.
  rewrite (cloneState_undecided s Hw).
  unfold processVote. rewrite Hdead, Hvote. unfold badVoteTarget.
  split.
  - intros Hbad.
    destruct (Z.ltb_spec target 0); [done |].
    destruct (Z.ltb_spec target (Z.of_nat (length (playerStates s)) - 1)); [done | lia].
  - intros [H0 Hlen].
    destruct (Z.ltb_spec target 0); [lia |].
    destruct (Z.ltb_spec target (Z.of_nat (length (playerStates s)) - 1)); [lia |].
    simpl. eexists. split; [reflexivity |].
    rewrite evalWinner_votes. simpl. by apply js_get_set.
Qed.

Lemma vote_target_check_witness :
  winner juryGame = None
  /\ js_get (playerStates juryGame) 0 = Some (with_alive false (tank 2 2 2 0 0))
  /\ js_get (votes juryGame) 0 = Some None
  /\ processEvent (VOTE "2023-09-11T05:00:00.000Z" 0 1) juryGame
     = (juryGame, Throw (Error "invalid action: invalid target player"))
  /\ exists s', processEvent (VOTE "2023-09-11T05:00:00.000Z" 0 2) juryGame
                = (juryGame, Ok s')
                /\ js_get (votes s') 0 = Some (Some 2).
Proof.
  destruct (vote_target_check juryGame "2023-09-11T05:00:00.000Z" 0 1
              (with_alive false (tank 2 2 2 0 0))
              eq_refl eq_refl eq_refl eq_refl eq_refl eq_refl) as [Hlow _].
  destruct (vote_target_check juryGame "2023-09-11T05:00:00.000Z" 0 2
              (with_alive false (tank 2 2 2 0 0))
              eq_refl eq_refl eq_refl eq_refl eq_refl eq_refl) as [_ Hhigh].
  split; [reflexivity |]. split; [reflexivity |]. split; [reflexivity |].
  split.
  - apply Hlow. right. simpl. lia.
  - apply Hhigh. simpl. lia.
Defined.

(** C10 as stated fails: with three players the vote for the highest index,
    2, is accepted and recorded, and the vote for player 1, which satisfies
    [target < playerStates.length - 1], is the one that is thrown out. *)
Lemma vote_highest_index_accepted :
  processEvent (VOTE "2023-09-11T05:00:00.000Z" 0 2) juryGame
  = (juryGame,
     Ok (with_votes [Some 2; None; None] juryGame))
  /\ processEvent (VOTE "2023-09-11T05:00:00.000Z" 0 1) juryGame
     = (juryGame, Throw (Error "invalid action: invalid target player")).
Proof. split; reflexivity. Qed.

Lemma outOfBounds_false (s : GameState) (row col : Z) :
  outOfBounds s row col = false ->
  0 <= row <= height (dimensions (config s)) - 2
  /\ 0 <= col <= width (dimensions (config s)) - 1.
Proof.
  unfold outOfBounds. rewrite !orb_false_iff, !Z.geb_leb, !Z.leb_gt, !Z.ltb_ge. lia.
Qed.

Lemma cellOccupied_row (s : GameState) (row col : Z) (b : bool) :
  cellOccupied s row col = Ok b -> exists r, js_get (boardState s) row = Some r.
Proof. unfold cellOccupied. destruct (js_get (boardState s) row); [eauto | done]. Qed.

(** After [boardState[row][col] = v] the cell reads [v]. *)
Lemma setCell_read (s : GameState) (row col : Z) (v : option Z) (r : list (option Z)) :
  js_get (boardState s) row = Some r -> 0 <= col ->
  exists r', js_get (boardState (setCell row col v s)) row = Some r'
             /\ js_get r' col = Some v.
Proof.
  intros [Hrow Hr]%js_get_lookup Hcol.
  exists (js_set r col v). split; [| by apply js_get_set].
  apply js_get_lookup. split; [done |]. simpl.
  by rewrite list_lookup_alter_eq, Hr.
Qed.

(** C4, on the code.  A PLACE that succeeds was made by a player that was
    not placed and had [ap >= 1], on a free cell with
    [0 <= row <= height-2] and [0 <= col <= width-1]; the returned state has
    the target cell holding the actor's index, but its player list is the
    one of the input: the actor's [placed] flag is still [false] there.  The
    flag was set on the player object of the input state. *)
Theorem place_returns_unplaced_actor (s : GameState) (t : string) (player row col : Z)
    (mutated next : GameState)
    (Hok : processEvent (PLACE t player row col) s = (mutated, Ok next)) :
  exists pState,
    js_get (playerStates s) player = Some pState
    /\ placed pState = false
    /\ 1 <= ap pState
    /\ 0 <= row <= height (dimensions (config s)) - 2
    /\ 0 <= col <= width (dimensions (config s)) - 1
    /\ cellOccupied s row col = Ok false
    /\ (exists r, js_get (boardState next) row = Some r
                  /\ js_get r col = Some (Some player))
    /\ playerStates next = playerStates s
    /\ mutated = mutate player (with_placed true) s.
Proof.
  destruct (processEvent_player_ok (PLACE t player row col) player _ _ _ eq_refl Hok)
    as (Hw & Hstart & Hclone & pState & Hp & Hdq).
  exists pState. revert Hok. unfold processEvent.
  rewrite Hw, Hstart. simpl. rewrite Hp, Hdq, Hclone. unfold processPlace.
  destruct (placed pState) eqn:Hpl; [done |].
  destruct (Z.ltb_spec (ap pState) 1); [done |].
  destruct (outOfBounds s row col) eqn:Hoob; [done |].
  destruct (cellOccupied s row col) as [[|]|] eqn:Hocc; try done.
  intros [= <- <-].
  apply outOfBounds_false in Hoob as [Hrow Hcol].
  destruct (cellOccupied_row _ _ _ _ Hocc) as [r Hr].
  repeat split; try done; try lia.
  - rewrite evalWinner_boardState. apply (setCell_read s row col _ r); [done | lia].
  - by rewrite evalWinner_playerStates.
Qed.

Lemma place_returns_unplaced_actor_witness :
  exists mutated next,
    processEvent (PLACE "2023-09-11T05:00:00.000Z" 0 1 1) lobbyGame = (mutated, Ok next)
    /\ placed <$> js_get (playerStates next) 0 = Some false
    /\ placed <$> js_get (playerStates mutated) 0 = Some true
    /\ playerStates next = playerStates lobbyGame.
Proof.
  eexists _, _. split; [reflexivity |].
  split; [reflexivity |]. split; [reflexivity |].
  destruct (place_returns_unplaced_actor lobbyGame "2023-09-11T05:00:00.000Z" 0 1 1
              _ _ eq_refl) as (p & _ & _ & _ & _ & _ & _ & _ & Hsame & _).
  exact Hsame.
Defined.

Lemma occupied_set (r : list (option Z)) (col p : Z) :
  0 <= col -> occupied (js_set r col (Some p)) col = true.
Proof. intros H. unfold occupied. by rewrite js_get_set. Qed.

Lemma occupied_clear (r : list (option Z)) (col : Z) :
  occupied (js_set r col None) col = false.
Proof.
  unfold occupied. destruct (Z.ltb_spec col 0) as [Hneg | Hpos].
  - unfold js_get. by destruct (Z.ltb_spec col 0); [| lia].
  - by rewrite js_get_set.
Qed.

(** A write to one cell of a row leaves the other cells free or taken as
    they were. *)
Lemma occupied_set_other (r : list (option Z)) (i j : Z) (v : option Z) :
  i <> j -> occupied (js_set r j v) i = occupied r i.
Proof.
  intros Hij. unfold occupied, js_get, js_set.
  destruct (Z.ltb_spec i 0); [done |].
  destruct (Z.ltb_spec j 0); [done |].
  assert (Hne : Z.to_nat j <> Z.to_nat i) by lia.
  destruct (Nat.ltb_spec (Z.to_nat j) (length r)).
  - by rewrite list_lookup_insert_ne.
  - destruct (decide (Z.to_nat i < length r)%nat) as [Hlt | Hge].
    + by rewrite lookup_app_l.
    + rewrite lookup_app_r by lia.
      rewrite (lookup_ge_None_2 r) by lia.
      destruct (decide (Z.to_nat i - length r < Z.to_nat j - length r)%nat).
      * rewrite lookup_app_l by (rewrite length_replicate; lia).
        by rewrite lookup_replicate_2.
      * rewrite lookup_app_r by (rewrite length_replicate; lia).
        rewrite length_replicate.
        rewrite lookup_ge_None_2; [done |]. simpl. lia.
Qed.

Lemma getVector_cases (dir : string) (dr dc : Z) :
  getVector dir = Some (dr, dc) ->
  (dr = -1 /\ dc = 0) \/ (dr = 0 /\ dc = -1) \/ (dr = 1 /\ dc = 0).
Proof.
  unfold getVector.
  repeat (match goal with |- context [String.eqb ?a ?b] => destruct (String.eqb a b) end);
    intros [= <- <-]; auto.
Qed.

(** C5, on the code.  "RIGHT" moves by the vector of "UP".  A MOVE that
    succeeds vacates the actor's cell and occupies the destination on the
    board of the returned state, but the player list of the returned state
    is the one of the input: the actor's [ap] is not reduced and its stored
    coordinates are not the destination there.  Both writes went to the
    player object of the input state. *)
Theorem move_returns_stale_actor (s : GameState) (t : string) (player : Z) (dir : string)
    (mutated next : GameState)
    (Hok : processEvent (MOVE t player dir) s = (mutated, Ok next)) :
  getVector "RIGHT" = getVector "UP"
  /\ processEvent (MOVE t player "RIGHT") s = processEvent (MOVE t player "UP") s
  /\ exists pState dr dc,
       js_get (playerStates s) player = Some pState
       /\ getVector dir = Some (dr, dc)
       /\ cellOccupied next (locRow pState) (locCol pState) = Ok false
       /\ (exists r, js_get (boardState next) (locRow pState + dr) = Some r
                     /\ js_get r (locCol pState + dc) = Some (Some player))
       /\ playerStates next = playerStates s
       /\ mutated
          = mutate player (with_loc (locRow pState + dr) (locCol pState + dc))
              (mutate player (fun p => with_ap (ap p - 1) p) s).
Proof.
  split; [reflexivity |]. split; [reflexivity |].
  destruct (processEvent_player_ok (MOVE t player dir) player _ _ _ eq_refl Hok)
    as (Hw & Hstart & Hclone & pState & Hp & Hdq).
  exists pState. revert Hok. unfold processEvent.
  rewrite Hw, Hstart. simpl. rewrite Hp, Hdq, Hclone. unfold processMove.
  destruct (placed pState); [| done].
  destruct (alive pState); [| done]. simpl.
  destruct (Z.ltb_spec (ap pState) 1); [done |].
  destruct (getVector dir) as [[dr dc]|] eqn:Hvec; [| done].
  destruct (outOfBounds s _ _) eqn:Hoob; [done |].
  destruct (cellOccupied s _ _) as [[|]|] eqn:Hocc; try done.
  destruct (js_get (boardState s) (locRow pState)) as [r0|] eqn:Hr0; [| done].
  intros [= <- <-]. exists dr, dc.
  apply outOfBounds_false in Hoob as [Hrow Hcol].
  destruct (cellOccupied_row _ _ _ _ Hocc) as [r Hr].
  apply getVector_cases in Hvec.
  pose proof Hr0 as [Hloc Hr0']%js_get_lookup.
  repeat split; try done.
  - unfold cellOccupied. rewrite evalWinner_boardState. simpl.
    unfold js_get at 1. destruct (Z.ltb_spec (locRow pState) 0); [lia |].
    destruct (decide (Z.to_nat (locRow pState + dr) = Z.to_nat (locRow pState)))
      as [Heq | Hne].
    + rewrite Heq, !list_lookup_alter_eq, Hr0'. simpl. f_equal.
      rewrite occupied_set_other by lia. apply occupied_clear.
    + rewrite list_lookup_alter_ne by done.
      rewrite list_lookup_alter_eq, Hr0'. simpl. f_equal. apply occupied_clear.
  - rewrite evalWinner_boardState.
    destruct (js_get (boardState (setCell (locRow pState) (locCol pState) None s))
                (locRow pState + dr)) as [r1|] eqn:Hr1.
    + apply (setCell_read _ _ _ _ r1); [done | lia].
    + exfalso. revert Hr1. unfold js_get. simpl.
      destruct (Z.ltb_spec (locRow pState + dr) 0); [lia |].
      apply js_get_lookup in Hr as [_ Hr].
      destruct (decide (Z.to_nat (locRow pState) = Z.to_nat (locRow pState + dr)))
        as [Heq | Hne].
      * rewrite Heq, list_lookup_alter_eq, Hr. done.
      * rewrite list_lookup_alter_ne, Hr by done. done.
  - by rewrite evalWinner_playerStates.
Qed.

Lemma move_returns_stale_actor_witness :
  exists mutated next,
    processEvent (MOVE "2023-09-11T05:00:00.000Z" 0 "RIGHT") midGame = (mutated, Ok next)
    /\ js_get (playerStates next) 0 = Some (tank 2 2 2 3 3)
    /\ js_get (playerStates mutated) 0 = Some (tank 1 2 2 2 3)
    /\ cellOccupied next 2 2 = Ok false
    /\ cellOccupied next 1 2 = Ok true
    /\ playerStates next = playerStates midGame.
Proof.
  eexists _, _. split; [reflexivity |].
  split; [reflexivity |]. split; [reflexivity |].
  split; [reflexivity |]. split; [reflexivity |].
  destruct (move_returns_stale_actor midGame "2023-09-11T05:00:00.000Z" 0 "RIGHT"
              _ _ eq_refl) as (_ & _ & p & dr & dc & _ & _ & _ & _ & Hsame & _).
  exact Hsame.
Defined.

(** C6, on the code.  When a FIRE that succeeds brings the target to
    [hp <= 0], the target of the returned state is not alive and has
    [ap = 0]; but the votes of the returned state are the votes of the
    input, and an actor other than the target has, in the returned state,
    the [ap] it had before.  The [ap] bookkeeping of the actor
    ([ap - 1 + target.ap]) went to the player object of the input state. *)
Theorem fire_kill_keeps_votes_and_actor (s : GameState) (t : string) (player target : Z)
    (mutated next : GameState) (pState tState : GamePlayerState)
    (Hok : processEvent (FIRE t player target) s = (mutated, Ok next))
    (Hp : js_get (playerStates s) player = Some pState)
    (Ht : js_get (playerStates s) target = Some tState)
    (Hkill : hp tState - 1 <= 0) :
  js_get (playerStates next) target
  = Some (with_ap 0 (with_alive false (with_hp (hp tState - 1) tState)))
  /\ (player <> target -> js_get (playerStates next) player = Some pState)
  /\ votes next = votes s
  /\ js_get (playerStates mutated) player
     = Some (with_ap (ap pState - 1 + ap tState) pState).
Proof.
  destruct (processEvent_player_ok (FIRE t player target) player _ _ _ eq_refl Hok)
    as (Hw & Hstart & Hclone & pState' & Hp' & Hdq).
  rewrite Hp in Hp'. injection Hp' as <-.
  revert Hok. unfold processEvent.
  rewrite Hw, Hstart. simpl. rewrite Hp, Hdq, Hclone. unfold processFire.
  destruct (Z.ltb_spec (ap pState) 1); [done |].
  destruct (badTarget s target); [done |]. rewrite Ht.
  destruct (distance tState pState >? range pState); [done |].
  destruct (Z.leb_spec (hp tState - 1) 0); [| lia].
  intros [= <- <-].
  pose proof Hp as [Hplayer Hp']%js_get_lookup.
  pose proof Ht as [Htarget Ht']%js_get_lookup.
  rewrite evalWinner_playerStates, evalWinner_votes.
  repeat split.
  - apply js_get_lookup. split; [done |]. simpl.
    by rewrite !list_lookup_alter_eq, Ht'.
  - intros Hne. apply js_get_lookup. split; [done |]. simpl.
    by rewrite !list_lookup_alter_ne by lia.
  - apply js_get_lookup. split; [done |]. simpl.
    rewrite !list_lookup_alter_eq, Hp'. by destruct pState.
Qed.

Lemma fire_kill_keeps_votes_and_actor_witness :
  exists mutated next,
    processEvent (FIRE "2023-09-11T05:00:00.000Z" 0 1) votedGame = (mutated, Ok next)
    /\ js_get (playerStates next) 1 = Some (with_alive false (tank 2 3 2 0 0))
    /\ js_get (playerStates next) 0 = Some (tank 2 2 2 3 3)
    /\ votes next = [None; None; None; Some 1]
    /\ js_get (playerStates mutated) 0 = Some (tank 2 2 2 4 3).
Proof.
  eexists _, _. split; [reflexivity |].
  destruct (fire_kill_keeps_votes_and_actor votedGame "2023-09-11T05:00:00.000Z" 0 1
              _ _ (tank 2 2 2 3 3) (tank 2 3 2 2 1) eq_refl eq_refl eq_refl)
    as (H1 & H2 & H3 & H4); [simpl; lia |].
  split; [exact H1 |]. split; [apply H2; lia |]. split; [exact H3 | exact H4].
Defined.

(** ** The order of instants *)

Lemma str_le_gt (a b : string) : str_le a b = negb (str_gt a b).
Proof.
  unfold str_le, str_gt, String.leb, String.ltb.
  rewrite (String.compare_antisym b a). by destruct (String.compare a b).
Qed.

Lemma str_le_refl (a : string) : str_le a a = true.
Proof.
  unfold str_le, String.leb. destruct (String.compare a a) eqn:E; try done.
  pose proof (String.compare_antisym a a) as H. rewrite E in H. done.
Qed.

Lemma str_lt_le (a b : string) : str_lt a b = true -> str_le a b = true.
Proof.
  unfold str_lt, str_le, String.ltb, String.leb. by destruct (String.compare a b).
Qed.

Lemma str_compare_lt_trans (a b c : string) :
  String.compare a b = Lt -> String.compare b c = Lt -> String.compare a c = Lt.
Proof.
  intros Hab Hbc.
  apply OrderedTypeEx.String_as_OT.cmp_lt.
  eapply OrderedTypeEx.String_as_OT.lt_trans;
    apply OrderedTypeEx.String_as_OT.cmp_lt; eassumption.
Qed.

Lemma str_le_trans (a b c : string) :
  str_le a b = true -> str_le b c = true -> str_le a c = true.
Proof.
  unfold str_le, String.leb. intros Hab Hbc.
  destruct (String.compare a b) eqn:Eab; [| | done].
  - apply String.compare_eq_iff in Eab as ->. done.
  - destruct (String.compare b c) eqn:Ebc; [| | done].
    + apply String.compare_eq_iff in Ebc as <-. by rewrite Eab.
    + by rewrite (str_compare_lt_trans a b c).
Qed.

(** ** processEvents *)

Lemma insertEvent_perm (e : GameEvent) (l : list GameEvent) : insertEvent e l ≡ₚ e :: l.
Proof.
  induction l as [|x l IH]; simpl; [done |].
  destruct (str_lt (submittedAt e) (submittedAt x)); [done |].
  rewrite IH. apply Permutation_swap.
Qed.

Lemma sortEvents_perm (l : list GameEvent) : sortEvents l ≡ₚ l.
Proof.
  unfold sortEvents.
  enough (H : forall acc, foldl (fun acc e => insertEvent e acc) acc l ≡ₚ acc ++ l)
    by apply (H []).
  induction l as [|x l IH]; intros acc; simpl.
  - by rewrite app_nil_r.
  - rewrite IH, insertEvent_perm. simpl. apply Permutation_middle.
Qed.

Lemma insertEvent_sorted (e : GameEvent) (l : list GameEvent) :
  StronglySorted notLater l -> StronglySorted notLater (insertEvent e l).
Proof.
  induction 1 as [|x l Hl IH Hx]; simpl.
  - repeat constructor.
  - destruct (str_lt (submittedAt e) (submittedAt x)) eqn:Hlt.
    + constructor; [by constructor |].
      apply str_lt_le in Hlt. constructor; [done |].
      eapply Forall_impl; [exact Hx |]. intros y Hy.
      by apply (str_le_trans _ (submittedAt x)).
    + constructor; [done |].
      rewrite insertEvent_perm. constructor; [| done].
      unfold notLater. rewrite str_le_gt. unfold str_gt. fold (str_lt (submittedAt e) (submittedAt x)).
      by rewrite Hlt.
Qed.

Lemma sortEvents_sorted (l : list GameEvent) : StronglySorted notLater (sortEvents l).
Proof.
  unfold sortEvents.
  enough (H : forall acc, StronglySorted notLater acc ->
                StronglySorted notLater (foldl (fun acc e => insertEvent e acc) acc l))
    by (apply H; constructor).
  induction l as [|x l IH]; intros acc Hacc; simpl; [done |].
  by apply IH, insertEvent_sorted.
Qed.

(** The head of the sorted batch is one of the batch, and no event of the
    batch is earlier. *)
Lemma sortEvents_head (evs : list GameEvent) :
  evs <> [] ->
  exists first rest,
    sortEvents evs = first :: rest
    /\ first ∈ evs
    /\ Forall (notLater first) evs.
Proof.
  intros Hne. pose proof (sortEvents_perm evs) as Hperm.
  pose proof (sortEvents_sorted evs) as Hsorted.
  destruct (sortEvents evs) as [|first rest].
  - apply Permutation_nil_l in Hperm. done.
  - exists first, rest. split; [done |]. split.
    + rewrite <- Hperm. by left.
    + rewrite <- Hperm. apply StronglySorted_inv in Hsorted as [_ Hfirst].
      constructor; [apply str_le_refl | done].
Qed.

(** C2, on the code.  For a non-empty batch [processEvents] fails exactly
    when some incoming event (equivalently the earliest one) is not strictly
    after [process.updatedAt]; when every incoming event is strictly after
    it, the call succeeds and returns the process it was given: the sorted
    copy of the batch is put in [nextProcess], which is not what is
    returned, so the log of the returned process is the original log. *)
Theorem processEvents_returns_its_input
    (parseExpression : string -> string -> string -> nat -> string)
    (process : GameProcessState) (evs : list GameEvent) (Hne : evs <> []) :
  (Exists (fun e => str_le (submittedAt e) (updatedAt process) = true) evs ->
   processEvents parseExpression process evs
   = Throw (Error "invalid events: retroactive events detected"))
  /\ (Forall (fun e => str_gt (submittedAt e) (updatedAt process) = true) evs ->
      processEvents parseExpression process evs = Ok process).
Proof.
  destruct (sortEvents_head evs Hne) as (first & rest & Hsort & Hin & Hmin).
  unfold processEvents. rewrite map_id, Hsort.
  destruct evs as [|e0 evs']; [done |]. simpl length. simpl Nat.eqb. cbv iota.
  split.
  - intros (e & He & Hle)%Exists_exists.
    rewrite (str_le_trans _ (submittedAt e)); [done | | done].
    by apply (proj1 (Forall_forall _ _) Hmin).
  - intros Hall.
    rewrite str_le_gt, (proj1 (Forall_forall _ _) Hall first Hin). done.
Qed.

Lemma processEvents_returns_its_input_witness :
  [UPGRADE "2023-09-12T05:00:00.000Z" 0; MOVE "2023-09-11T05:00:00.000Z" 1 "DOWN"] <> []
  /\ processEvents weekdayNoonSeoul (initProcess midGame)
       [UPGRADE "2023-09-12T05:00:00.000Z" 0; MOVE "2023-09-11T05:00:00.000Z" 1 "DOWN"]
     = Ok (initProcess midGame)
  /\ events (initProcess midGame) = []
  /\ processEvents weekdayNoonSeoul (initProcess midGame)
       [UPGRADE "2023-09-12T05:00:00.000Z" 0; MOVE "2023-09-08T04:00:00.000Z" 1 "DOWN"]
     = Throw (Error "invalid events: retroactive events detected").
Proof.
  split; [done |].
  split; [| split; [reflexivity |]].
  - apply (processEvents_returns_its_input weekdayNoonSeoul (initProcess midGame)
             [UPGRADE "2023-09-12T05:00:00.000Z" 0; MOVE "2023-09-11T05:00:00.000Z" 1 "DOWN"]);
      [done |].
    repeat constructor.
  - apply (processEvents_returns_its_input weekdayNoonSeoul (initProcess midGame)
             [UPGRADE "2023-09-12T05:00:00.000Z" 0; MOVE "2023-09-08T04:00:00.000Z" 1 "DOWN"]);
      [done |].
    apply Exists_cons_tl, Exists_cons_hd. reflexivity.
Defined.

(** ** calculateState on a game in progress *)


(** The loop takes a logged event only when its instant is strictly after
    [nextTick], and the tick otherwise. *)
Lemma pick_logged (process : GameProcessState) (interval : nat -> string) (i k : nat)
    (e : GameEvent) :
  events process !! i = Some e ->
  pick process interval i k
  = if str_gt (submittedAt e) (interval k) then (e, S i, k)
    else (TICK (interval k), i, S k).
Proof.
  intros He. unfold pick. rewrite He, str_le_gt.
  by destruct (str_gt (submittedAt e) (interval k)).
Qed.

(** C1, on the code.  The loop compares the wrong way round: it takes the
    tick when the logged event is *not later* than [nextTick] and the logged
    event when it is strictly later.  A logged event that precedes the next
    tick is therefore never applied (first run: the UPGRADE of 02:00Z is
    within the query window and only the tick of 03:00Z is applied), and one
    that follows it is applied before that tick (second run: the UPGRADE of
    05:00Z, then the tick of 03:00Z). *)
Theorem replay_takes_the_later_event :
  applied <$> calculateState weekdayNoonSeoul 3 "2023-09-11T04:00:00.000Z" earlyProcess
  = Some [TICK "2023-09-11T03:00:00.000Z"]
  /\ applied <$> calculateState weekdayNoonSeoul 3 "2023-09-11T06:00:00.000Z" lateProcess
     = Some [UPGRADE "2023-09-11T05:00:00.000Z" 0; TICK "2023-09-11T03:00:00.000Z"].
Proof. split; vm_compute; reflexivity. Qed.

(** C8, on the code.  [calculateState] applies the first event to the stored
    object [process.state] itself, and [processEvent] writes the actor's new
    [ap] and [range] through [pState] into that object: after the call the
    first tank of the stored state has [ap = 0] and [range = 3] instead of
    [ap = 3] and [range = 2], the returned state does not show the upgrade,
    and the same call made again throws. *)
Theorem calculateState_mutates_stored_state :
  exists o,
    calculateState weekdayNoonSeoul 3 "2023-09-11T06:00:00.000Z" lateProcess = Some o
    /\ js_get (playerStates (state lateProcess)) 0 = Some (tank 2 2 2 3 3)
    /\ js_get (playerStates (stored_after o)) 0 = Some (tank 2 2 3 0 3)
    /\ stored_after o <> state lateProcess
    /\ (playerStates <$> returned (stored_after o, answer o))
       = Some [tank 2 2 2 4 3; tank 2 3 2 3 1; tank 4 4 2 2 3]
    /\ answer <$> calculateState weekdayNoonSeoul 3 "2023-09-11T06:00:00.000Z"
                    {| state := stored_after o;
                       events := events lateProcess;
                       updatedAt := updatedAt lateProcess |}
       = Some (Throw insufficientAP).
Proof.
  eexists. split; [vm_compute; reflexivity |].
  split; [reflexivity |]. split; [reflexivity |].
  split; [intros H; discriminate H |].
  split; vm_compute; reflexivity.
Qed.

(** ** Further properties: what every transition keeps *)

Lemma processEvent_tick_input (t : string) (s : GameState) :
  (processEvent (TICK t) s).1 = s.
Proof.
  unfold processEvent. destruct (winner s); [done |].
  by destruct (str_le _ _).
Qed.

Lemma list_alter_compose {A} (f g : A -> A) (i : nat) (l : list A) :
  alter (fun x => f (g x)) i l = alter f i (alter g i l).
Proof.
  unfold alter. revert i.
  induction l as [|x l IH]; intros [|i]; simpl; f_equal; auto.
Qed.

Lemma mutate_mutate (player : Z) (f g : GamePlayerState -> GamePlayerState)
    (s : GameState) :
  mutate player f (mutate player g s) = mutate player (fun p => f (g p)) s.
Proof.
  unfold mutate, with_playerStates. simpl. by rewrite (list_alter_compose f g).
Qed.

(** Case analysis on the tests of a transition. *)
Ltac branch :=
  repeat match goal with
    | |- context [if ?b then _ else _] => destruct b eqn:?
    | |- context [match getVector ?d with _ => _ end] =>
        destruct (getVector d) as [[? ?]|] eqn:?
    | |- context [match cellOccupied ?a ?b ?c with _ => _ end] =>
        destruct (cellOccupied a b c) as [[|]|] eqn:?
    | |- context [match js_get (votes ?a) ?b with _ => _ end] =>
        destruct (js_get (votes a) b) as [[?|]|] eqn:?
    | |- context [match js_get ?a ?b with _ => _ end] =>
        destruct (js_get a b) eqn:?
    | |- context [match processTick ?a with _ => _ end] =>
        destruct (processTick a) eqn:?
    end.

Ltac unfold_transitions :=
  unfold processUpgrade, processPlace, processMove, processFire, processVote,
    processGiftAP, processGiftHP.

(** The contents of the input state object after a call, whatever the call
    answers: untouched, or changed in the entry of the actor only. *)
Lemma processEvent_input_cases (e : GameEvent) (s : GameState) :
  (processEvent e s).1 = s
  \/ exists player f,
       eventPlayer e = Some player /\ 0 <= player
       /\ (processEvent e s).1 = mutate player f s.
Proof.
  unfold processEvent. destruct (winner s); [by left |].
  destruct (str_le _ _); [by left |].
  destruct (eventPlayer e) as [player|] eqn:Hp; [| by left].
  destruct (js_get (playerStates s) player) as [pState|] eqn:Hget; [| by left].
  apply js_get_lookup in Hget as [Hpos _].
  destruct (disqualified pState); [by left |].
  destruct e; try done; simpl in Hp; injection Hp as ->;
    unfold_transitions; branch; try (by left); right.
  all: cbn [fst]; rewrite ?mutate_mutate.
  all: eexists _, _; split; [done |]; split; [done |]; reflexivity.
Qed.

(** X1.  Whatever the event and whatever the call answers, [processEvent]
    leaves the configuration, the board, the votes and the winner of its
    input state object as they were, keeps the number of its players, and
    changes no player of it other than the one acting. *)
Theorem input_object_frame (e : GameEvent) (s : GameState) :
  config (processEvent e s).1 = config s
  /\ boardState (processEvent e s).1 = boardState s
  /\ votes (processEvent e s).1 = votes s
  /\ winner (processEvent e s).1 = winner s
  /\ length (playerStates (processEvent e s).1) = length (playerStates s)
  /\ (forall j : nat,
        eventPlayer e <> Some (Z.of_nat j) ->
        playerStates (processEvent e s).1 !! j = playerStates s !! j).
Proof.
  destruct (processEvent_input_cases e s) as [-> | (player & f & Hp & Hpos & ->)];
    [done |].
  repeat split; simpl.
  - apply length_alter.
  - intros j Hj. apply list_lookup_alter_ne. intros <-.
    apply Hj. rewrite Hp. f_equal. lia.
Qed.

(** X2.  An event that is thrown out changes nothing: the input state object
    is as it was before the call.  The one exception is a MOVE that dies of a
    TypeError (the actor's stored row is off the board), which has already
    taken the action point. *)
Theorem failed_event_changes_nothing (e : GameEvent) (s m : GameState) (x : exn)
    (Hfail : processEvent e s = (m, Throw x))
    (Hnot : is_move e = false \/ x <> TypeError) :
  m = s.
Proof.
  revert Hfail. unfold processEvent.
  destruct (winner s); [by intros [= <- _] |].
  destruct (str_le _ _); [by intros [= <- _] |].
  destruct (eventPlayer e) as [player|] eqn:Hp; [| by intros [= <- _]].
  destruct (js_get (playerStates s) player) as [pState|]; [| by intros [= <- _]].
  destruct (disqualified pState); [by intros [= <- _] |].
  destruct e; try done; simpl in Hp; injection Hp as ->;
    unfold_transitions; branch; intros [= <- <-]; try done.
  by destruct Hnot.
Qed.

Lemma failed_event_changes_nothing_witness :
  exists m x,
    processEvent (UPGRADE "2023-09-11T05:00:00.000Z" 2) midGame = (m, Throw x)
    /\ (is_move (UPGRADE "2023-09-11T05:00:00.000Z" 2) = false \/ x <> TypeError)
    /\ m = midGame.
Proof.
  eexists _, _. split; [reflexivity |].
  assert (H : is_move (UPGRADE "2023-09-11T05:00:00.000Z" 2) = false
              \/ insufficientAP <> TypeError) by (left; reflexivity).
  split; [exact H |].
  exact (failed_event_changes_nothing (UPGRADE "2023-09-11T05:00:00.000Z" 2)
           midGame _ _ eq_refl H).
Defined.

(** The exception is real: a placed tank whose stored row is [-1] moves
    "DOWN" onto the free cell (0,0); the write that vacates its old cell
    reads row [-1] of the board and throws, after [pState.ap -= 1]. *)
Example move_type_error_keeps_the_charge :
  let lost := with_playerStates [tank (-1) 0 2 1 3; tank 2 3 2 2 1; tank 4 4 2 1 3] midGame in
  processEvent (MOVE "2023-09-11T05:00:00.000Z" 0 "DOWN") lost
  = (with_playerStates [tank (-1) 0 2 0 3; tank 2 3 2 2 1; tank 4 4 2 1 3] midGame,
     Throw TypeError).
Proof. reflexivity. Qed.

(** ** Further properties: the state a transition returns *)

Lemma badTarget_false (s : GameState) (target : Z) :
  badTarget s target = false -> 0 <= target < Z.of_nat (length (playerStates s)).
Proof.
  unfold badTarget. rewrite orb_false_iff, Z.ltb_ge, Z.gtb_ltb, Z.ltb_ge. lia.
Qed.

(** X3.  The state returned by a successful event of a player has the
    configuration and the number of players and board rows of the input;
    its players are those of the input, the target of the event apart; its
    board is the input's unless the event is a PLACE or a MOVE, and its
    votes are the input's unless the event is a VOTE. *)
Theorem returned_state_frame (e : GameEvent) (s m next : GameState)
    (Hok : processEvent e s = (m, Ok next))
    (Hplayer : is_tick e = false) :
  config next = config s
  /\ length (playerStates next) = length (playerStates s)
  /\ (forall j : nat,
        eventTarget e <> Some (Z.of_nat j) ->
        playerStates next !! j = playerStates s !! j)
  /\ length (boardState next) = length (boardState s)
  /\ (touchesBoard e = false -> boardState next = boardState s)
  /\ (is_vote e = false -> votes next = votes s).
Proof.
  revert Hok. unfold processEvent.
  destruct (winner s) eqn:Hw; [done |].
  destruct (str_le _ _); [done |].
  rewrite (cloneState_undecided s Hw).
  destruct (eventPlayer e) as [player|] eqn:Hp; [| by destruct e].
  destruct (js_get (playerStates s) player) as [pState|]; [| done].
  destruct (disqualified pState); [done |].
  destruct e; try done; simpl in Hp; injection Hp as ->;
    unfold_transitions; branch; intros [= <- <-];
    rewrite ?evalWinner_config, ?evalWinner_playerStates, ?evalWinner_boardState,
      ?evalWinner_votes; simpl;
    rewrite ?length_alter;
    repeat split; try done;
    try (intros j Hj; rewrite ?list_lookup_alter_ne; [done | ..];
         match goal with
         | H : badTarget _ _ = false |- _ => apply badTarget_false in H
         end; intros <-; apply Hj; f_equal; lia).
Qed.

Lemma returned_state_frame_witness :
  exists m next,
    processEvent (GIFT_AP "2023-09-11T05:00:00.000Z" 0 1) midGame = (m, Ok next)
    /\ is_tick (GIFT_AP "2023-09-11T05:00:00.000Z" 0 1) = false
    /\ playerStates next !! 0%nat = playerStates midGame !! 0%nat
    /\ playerStates next !! 2%nat = playerStates midGame !! 2%nat
    /\ boardState next = boardState midGame
    /\ votes next = votes midGame.
Proof.
  eexists _, _. split; [reflexivity |]. split; [reflexivity |].
  destruct (returned_state_frame (GIFT_AP "2023-09-11T05:00:00.000Z" 0 1) midGame
              _ _ eq_refl eq_refl) as (_ & _ & Hothers & _ & Hboard & Hvotes).
  split; [apply Hothers; simpl; intros [= H]; lia |].
  split; [apply Hothers; simpl; intros [= H]; lia |].
  split; [apply Hboard; reflexivity | apply Hvotes; reflexivity].
Defined.

(** The survivors are the indices of the living players, each once. *)
Lemma survivors_from_spec (ps : list GamePlayerState) (i w : Z) :
  w ∈ survivors_from i ps
  <-> exists (n : nat) p, ps !! n = Some p /\ alive p = true /\ w = i + Z.of_nat n.
Proof.
  revert i. induction ps as [|p ps IH]; intros i; simpl.
  - split; [by intros ?%elem_of_nil | by intros (n & q & ? & _)].
  - destruct (alive p) eqn:Hp; [rewrite elem_of_cons |]; rewrite IH; split.
    + intros [-> | (n & q & Hq & Ha & ->)].
      * exists 0%nat, p. repeat split; [done |]. lia.
      * exists (S n), q. repeat split; try done. lia.
    + intros ([|n] & q & Hq & Ha & ->); simpl in Hq.
      * left. lia.
      * right. exists n, q. repeat split; try done. lia.
    + intros (n & q & Hq & Ha & ->). exists (S n), q. repeat split; try done. lia.
    + intros ([|n] & q & Hq & Ha & ->); simpl in Hq.
      * injection Hq as <-. congruence.
      * exists n, q. repeat split; try done. lia.
Qed.

Lemma survivors_from_lower (ps : list GamePlayerState) (i w : Z) :
  w ∈ survivors_from i ps -> i <= w.
Proof. intros (n & p & _ & _ & ->)%survivors_from_spec. lia. Qed.

Lemma survivors_from_NoDup (ps : list GamePlayerState) (i : Z) :
  NoDup (survivors_from i ps).
Proof.
  revert i. induction ps as [|p ps IH]; intros i; simpl; [constructor |].
  destruct (alive p); [| apply IH].
  constructor; [| apply IH].
  intros H%survivors_from_lower. lia.
Qed.

(** Every state a transition returns went through the win evaluation. *)
Lemma processEvent_ok_evalWinner (e : GameEvent) (s m next : GameState) :
  processEvent e s = (m, Ok next) ->
  exists n, winner n = None /\ next = evalWinner n.
Proof.
  unfold processEvent.
  destruct (winner s) eqn:Hw; [done |].
  destruct (str_le _ _); [done |].
  rewrite (cloneState_undecided s Hw).
  destruct (eventPlayer e) as [player|] eqn:Hp.
  - destruct (js_get (playerStates s) player) as [pState|]; [| done].
    destruct (disqualified pState); [done |].
    destruct e; try done; unfold_transitions; branch; intros [= <- <-];
      eexists; (split; [| reflexivity]); done.
  - unfold processTick. destruct (tallyVotes _ _ _ _); [| done].
    intros [= <- <-]. eexists; (split; [| reflexivity]); done.
Qed.

(** X4.  The winner a transition returns agrees with the players it returns:
    it is [-1] exactly when nobody is alive, the index of the only living
    player when there is exactly one, and [null] when at least two players
    are alive. *)
Theorem winner_is_the_sole_survivor (e : GameEvent) (s m next : GameState)
    (Hok : processEvent e s = (m, Ok next)) :
  match winner next with
  | None =>
      exists (i j : nat) p q,
        i <> j /\ playerStates next !! i = Some p /\ playerStates next !! j = Some q
        /\ alive p = true /\ alive q = true
  | Some w =>
      (w = -1 /\ Forall (fun p => alive p = false) (playerStates next))
      \/ (exists p, js_get (playerStates next) w = Some p /\ alive p = true
                    /\ forall (j : nat) q,
                         playerStates next !! j = Some q -> alive q = true ->
                         Z.of_nat j = w)
  end.
Proof.
  destruct (processEvent_ok_evalWinner e s m next Hok) as (n & Hn & ->).
  pose proof (survivors_from_spec (playerStates n) 0) as Hspec.
  pose proof (survivors_from_NoDup (playerStates n) 0) as Hnodup.
  rewrite evalWinner_playerStates. unfold evalWinner, survivors.
  destruct (survivors_from 0 (playerStates n)) as [|w [|w' rest]]; simpl.
  - left. split; [done |]. apply Forall_lookup. intros j q Hq.
    destruct (alive q) eqn:Ha; [| done].
    exfalso. eapply elem_of_nil, Hspec. eauto.
  - right. destruct (proj1 (Hspec w)) as (k & p & Hp & Ha & ->); [by left |].
    exists p. split; [| split; [done |]].
    + apply js_get_lookup. split; [lia |]. by rewrite Z.add_0_l, Nat2Z.id.
    + intros j q Hq Haq.
      assert (Hin : 0 + Z.of_nat j ∈ [0 + Z.of_nat k]) by (apply Hspec; eauto).
      apply list_elem_of_singleton in Hin. lia.
  - rewrite Hn.
    destruct (proj1 (Hspec w)) as (i & p & Hp & Hap & Hw); [by left |].
    destruct (proj1 (Hspec w')) as (j & q & Hq & Haq & Hw'); [by right; left |].
    exists i, j, p, q. repeat split; try done.
    intros ->. apply NoDup_cons_1_1 in Hnodup. apply Hnodup.
    rewrite Hw, Hw'. by left.
Qed.

Lemma winner_is_the_sole_survivor_witness :
  exists m next,
    processEvent (FIRE "2023-09-11T05:00:00.000Z" 1 0)
      (with_playerStates [tank 2 2 2 3 1; tank 2 3 2 2 1] midGame) = (m, Ok next)
    /\ winner next = Some 1
    /\ exists p, js_get (playerStates next) 1 = Some p /\ alive p = true.
Proof.
  eexists _, _. split; [reflexivity |]. split; [reflexivity |].
  pose proof (winner_is_the_sole_survivor (FIRE "2023-09-11T05:00:00.000Z" 1 0)
                (with_playerStates [tank 2 2 2 3 1; tank 2 3 2 2 1] midGame)
                _ _ eq_refl) as H.
  simpl in H. destruct H as [[H _] | (p & Hp & Ha & _)]; [discriminate H |].
  exists p. split; [exact Hp | exact Ha].
Defined.

(** ** Further properties: the tick *)

Lemma juryVotes_nonneg (ps : list GamePlayerState) (vs : list (option Z)) (i : nat) (t : Z) :
  0 <= juryVotes ps i vs t.
Proof.
  revert i. induction vs as [|v vs IH]; intros i; simpl; [done |].
  specialize (IH (S i)). destruct (countsFor ps i v t); lia.
Qed.

(** The counters the loop of the tick fills are the jury votes. *)
Lemma tallyVotes_spec (ps : list GamePlayerState) (vs : list (option Z)) :
  forall (i : nat) (c c' : list Z),
    tallyVotes ps i vs c = Ok c' ->
    forall n : nat,
      c' !! n = (fun x => x + juryVotes ps i vs (Z.of_nat n)) <$> (c !! n).
Proof.
  induction vs as [|v vs IH]; intros i c c' Htally n; simpl in *.
  - injection Htally as <-. destruct (c !! n); simpl; [f_equal; lia | done].
  - unfold countsFor. destruct (ps !! i) as [voter|]; [| done].
    destruct (negb (disqualified voter) && negb (alive voter)); simpl.
    2: { rewrite (IH _ _ _ Htally n). by destruct v, (c !! n). }
    destruct v as [t|].
    2: { rewrite (IH _ _ _ Htally n). by destruct (c !! n). }
    destruct (js_get ps t) as [q|] eqn:Hq; [| done]. simpl.
    apply js_get_lookup in Hq as [Ht _].
    destruct (alive q).
    + rewrite (IH _ _ _ Htally n), andb_true_r.
      destruct (Z.eqb_spec t (Z.of_nat n)) as [-> | Hne].
      * rewrite Nat2Z.id, list_lookup_alter_eq.
        destruct (c !! n); simpl; [f_equal; lia | done].
      * rewrite list_lookup_alter_ne by lia. by destruct (c !! n).
    + rewrite (IH _ _ _ Htally n), andb_false_r. by destruct (c !! n).
Qed.

Lemma grantAP_lookup (c : list Z) (ps : list GamePlayerState) :
  forall i j : nat,
    grantAP c i ps !! j
    = (fun p => if negb (alive p) || negb (placed p) then p
                else with_ap (ap p + (1 + default 0 (c !! (i + j)%nat) / 3)) p)
        <$> ps !! j.
Proof.
  induction ps as [|p ps IH]; intros i [|j]; simpl; try done.
  - by rewrite Nat.add_0_r.
  - rewrite IH. by replace (S i + j)%nat with (i + S j)%nat by lia.
Qed.

Lemma grantAP_length (c : list Z) (ps : list GamePlayerState) (i : nat) :
  length (grantAP c i ps) = length ps.
Proof. revert i. induction ps as [|p ps IH]; intros i; simpl; [done | by rewrite IH]. Qed.

(** X5.  A tick that succeeds leaves its input, the configuration and the
    board alone and empties every vote slot.  Of the players it returns, one
    that was not placed is disqualified and dead; one that was placed and
    alive has gained [1 + floor(v / 3)] action points, [v >= 0] being the
    number of votes for it cast by dead, non-disqualified players while it
    is alive; one that was placed and dead is as it was. *)
Theorem tick_effect (t : string) (s m next : GameState)
    (Hok : processEvent (TICK t) s = (m, Ok next)) :
  m = s
  /\ config next = config s
  /\ boardState next = boardState s
  /\ votes next = map (fun _ => None) (votes s)
  /\ length (playerStates next) = length (playerStates s)
  /\ forall (j : nat) p,
       playerStates s !! j = Some p ->
       0 <= juryVotes (map tickDisqualify (playerStates s)) 0 (votes s) (Z.of_nat j)
       /\ playerStates next !! j
          = Some (afterTick
                    (juryVotes (map tickDisqualify (playerStates s)) 0 (votes s)
                       (Z.of_nat j)) p).
Proof.
  revert Hok. unfold processEvent.
  destruct (winner s) eqn:Hw; [done |].
  destruct (str_le _ _); [done |]. simpl.
  rewrite (cloneState_undecided s Hw). unfold processTick.
  destruct (tallyVotes _ _ _ _) as [c|] eqn:Htally; [| done].
  intros [= <- <-].
  rewrite evalWinner_config, evalWinner_boardState, evalWinner_votes,
    evalWinner_playerStates. simpl.
  rewrite grantAP_length, length_map.
  repeat split; try done; [apply juryVotes_nonneg |].
  rewrite grantAP_lookup, list_lookup_fmap, H. simpl.
  rewrite (tallyVotes_spec _ _ _ _ _ Htally j), list_lookup_fmap, list_lookup_fmap, H.
  simpl. unfold afterTick, tickDisqualify.
  destruct (placed p) eqn:Hpl; [| done]. rewrite Hpl.
  destruct (alive p); simpl; [| done]. by rewrite Z.add_0_l.
Qed.

Lemma tick_effect_witness :
  exists m next,
    processEvent (TICK "2023-09-11T03:00:00.000Z") juryOfThree = (m, Ok next)
    /\ playerStates next
       = [tank 2 2 2 4 3; tank 2 3 2 4 1;
          with_disqualified true (with_alive false (with_ap 5 initPlayerState));
          with_alive false (tank 0 0 2 0 0); with_alive false (tank 0 1 2 0 0);
          with_alive false (tank 0 2 2 0 0)]
    /\ votes next = [None; None; None; None; None; None]
    /\ playerStates next !! 1%nat = Some (afterTick 3 (tank 2 3 2 2 1)).
Proof.
  eexists _, _. split; [reflexivity |]. split; [reflexivity |]. split; [reflexivity |].
  destruct (tick_effect "2023-09-11T03:00:00.000Z" juryOfThree _ _ eq_refl)
    as (_ & _ & _ & _ & _ & Hplayers).
  exact (proj2 (Hplayers 1%nat (tank 2 3 2 2 1) eq_refl)).
Defined.

Lemma tallyVotes_succeeds (ps : list GamePlayerState) (vs : list (option Z)) :
  Forall (fun v => match v with
                   | None => True
                   | Some t => 0 <= t < Z.of_nat (length ps)
                   end) vs ->
  forall (i : nat) (c : list Z),
    (i + length vs <= length ps)%nat ->
    exists c', tallyVotes ps i vs c = Ok c'.
Proof.
  induction 1 as [|v vs Hv _ IH]; intros i c Hlen; simpl in *; [eauto |].
  destruct (lookup_lt_is_Some_2 ps i) as [voter ->]; [lia |].
  destruct (negb (disqualified voter) && negb (alive voter)); [| apply IH; lia].
  destruct v as [t|]; [| apply IH; lia].
  destruct (lookup_lt_is_Some_2 ps (Z.to_nat t)) as [q Hq]; [lia |].
  rewrite (proj2 (js_get_lookup ps t q)) by (split; [lia | done]).
  destruct (alive q); apply IH; lia.
Qed.

Lemma tallyVotes_slots (ps : list GamePlayerState) (vs : list (option Z)) :
  forall (i : nat) (c c' : list Z),
    tallyVotes ps i vs c = Ok c' -> vs = [] \/ (i + length vs <= length ps)%nat.
Proof.
  induction vs as [|v vs IH]; intros i c c' Htally; [by left |]. right.
  simpl in *. destruct (ps !! i) as [voter|] eqn:Hvoter; [| done].
  apply lookup_lt_Some in Hvoter.
  assert (Hrest : exists c1, tallyVotes ps (S i) vs c1 = Ok c').
  { destruct (negb (disqualified voter) && negb (alive voter)); [| eauto].
    destruct v as [t|]; [| eauto].
    destruct (js_get ps t) as [q|]; [| done]. destruct (alive q); eauto. }
  destruct Hrest as [c1 Hc1]. destruct (IH _ _ _ Hc1) as [-> | ?]; simpl; lia.
Qed.

Lemma tallyVotes_throws (ps : list GamePlayerState) (vs : list (option Z)) :
  forall (i : nat) (c : list Z) (x : exn),
    tallyVotes ps i vs c = Throw x -> x = TypeError.
Proof.
  induction vs as [|v vs IH]; intros i c x; simpl; [done |].
  destruct (ps !! i) as [voter|]; [| by intros [= <-]].
  destruct (negb (disqualified voter) && negb (alive voter)); [| apply IH].
  destruct v as [t|]; [| apply IH].
  destruct (js_get ps t) as [q|]; [| by intros [= <-]].
  destruct (alive q); apply IH.
Qed.

(** X6.  On a started, undecided game a tick succeeds whenever the vote
    slots are no more than the players and every vote names a player; it
    dies of a TypeError, the state untouched, when there are more vote slots
    than players. *)
Theorem tick_succeeds (t : string) (s : GameState)
    (Hw : winner s = None)
    (Ht : str_le t (startAt (config s)) = false) :
  (votesInRange s -> exists next, processEvent (TICK t) s = (s, Ok next))
  /\ ((length (playerStates s) < length (votes s))%nat ->
      processEvent (TICK t) s = (s, Throw TypeError)).
Proof.
  unfold processEvent. rewrite Hw. simpl. rewrite Ht.
  rewrite (cloneState_undecided s Hw). unfold processTick. split.
  - intros [Hlen Hvotes].
    destruct (tallyVotes_succeeds (map tickDisqualify (playerStates s)) (votes s))
      with (i := 0%nat) (c := map (fun _ : GamePlayerState => 0)
                                (map tickDisqualify (playerStates s)))
      as [c' ->]; [by rewrite length_map | rewrite length_map; simpl; lia |].
    eauto.
  - intros Hmore.
    destruct (tallyVotes _ _ _ _) as [c'|x] eqn:Htally.
    + apply tallyVotes_slots in Htally as [Hnil | Hle].
      * rewrite Hnil in Hmore. simpl in Hmore. lia.
      * rewrite length_map in Hle. simpl in Hle. lia.
    + by apply tallyVotes_throws in Htally as ->.
Qed.

Lemma tick_succeeds_witness :
  winner juryOfThree = None
  /\ votesInRange juryOfThree
  /\ (exists next, processEvent (TICK "2023-09-11T03:00:00.000Z") juryOfThree
                   = (juryOfThree, Ok next))
  /\ processEvent (TICK "2023-09-11T03:00:00.000Z")
       (with_votes [None; None; None; None] midGame)
     = (with_votes [None; None; None; None] midGame, Throw TypeError).
Proof.
  assert (Hv : votesInRange juryOfThree).
  { split; [simpl; lia |]. repeat constructor; simpl; lia. }
  split; [reflexivity |]. split; [exact Hv |]. split.
  - exact (proj1 (tick_succeeds "2023-09-11T03:00:00.000Z" juryOfThree eq_refl eq_refl) Hv).
  - apply (tick_succeeds "2023-09-11T03:00:00.000Z"
             (with_votes [None; None; None; None] midGame) eq_refl eq_refl).
    simpl. lia.
Defined.

(** ** Further properties: FIRE, GIFT_AP, GIFT_HP and UPGRADE *)

Lemma badTarget_spec (s : GameState) (target : Z) :
  badTarget s target = false <-> exists tState, js_get (playerStates s) target = Some tState.
Proof.
  split.
  - intros H%badTarget_false.
    destruct (lookup_lt_is_Some_2 (playerStates s) (Z.to_nat target)) as [q Hq]; [lia |].
    exists q. apply js_get_lookup. split; [lia | done].
  - intros [q [H0 Hq%lookup_lt_Some]%js_get_lookup].
    unfold badTarget. rewrite orb_false_iff, Z.ltb_ge, Z.gtb_ltb, Z.ltb_ge. lia.
Qed.

(** X7.  On a started, undecided game, a FIRE by an existing, non-disqualified
    player succeeds exactly when the actor has an action point, the target is
    a player index and the distance the code computes is within the actor's
    range; neither has to be alive or placed, and the target may be the actor.
    A hit that leaves the target with [hp > 0] changes nothing but that [hp]
    in the returned state; the action point is taken from the input state
    object. *)
Theorem fire_rule (s : GameState) (t : string) (player target : Z)
    (pState : GamePlayerState)
    (Hw : winner s = None)
    (Ht : str_le t (startAt (config s)) = false)
    (Hp : js_get (playerStates s) player = Some pState)
    (Hdq : disqualified pState = false) :
  ((exists m next, processEvent (FIRE t player target) s = (m, Ok next))
   <-> 1 <= ap pState
       /\ exists tState, js_get (playerStates s) target = Some tState
                         /\ distance tState pState <= range pState)
  /\ (forall m next tState,
        processEvent (FIRE t player target) s = (m, Ok next) ->
        js_get (playerStates s) target = Some tState ->
        1 < hp tState ->
        next = evalWinner (updateTarget target (fun q => with_hp (hp q - 1) q) s)
        /\ m = mutate player (fun p => with_ap (ap p - 1) p) s).
Proof.
  unfold processEvent. rewrite Hw. simpl. rewrite Ht, Hp, Hdq.
  rewrite (cloneState_undecided s Hw). unfold processFire. split; [split |].
  - intros (m & next & Hok). revert Hok.
    destruct (Z.ltb_spec (ap pState) 1); [done |].
    destruct (badTarget s target) eqn:Hbad; [done |].
    apply badTarget_spec in Hbad as [tState HtS]. rewrite HtS.
    destruct (Z.gtb_spec (distance tState pState) (range pState)); [done |].
    intros _. split; [lia |]. exists tState. split; [done | lia].
  - intros (Hap & tState & HtS & Hdist).
    destruct (Z.ltb_spec (ap pState) 1); [lia |].
    assert (Hbad : badTarget s target = false) by (apply badTarget_spec; eauto).
    assert (Hd : (distance tState pState >? range pState) = false)
      by (rewrite Z.gtb_ltb; apply Z.ltb_ge; lia).
    rewrite Hbad, HtS, Hd.
    destruct (hp tState - 1 <=? 0); eauto.
  - intros m next tState Hok HtS Hhp. revert Hok. rewrite HtS.
    destruct (ap pState <? 1); [done |].
    destruct (badTarget s target); [done |].
    destruct (distance tState pState >? range pState); [done |].
    destruct (Z.leb_spec (hp tState - 1) 0); [lia |].
    by intros [= <- <-].
Qed.

Lemma fire_rule_witness :
  js_get (playerStates votedGame) 3 = Some (with_alive false (tank 0 0 2 0 0))
  /\ (exists m next, processEvent (FIRE "2023-09-11T05:00:00.000Z" 0 3) votedGame
                     = (m, Ok next))
  /\ exists m next,
       processEvent (FIRE "2023-09-11T05:00:00.000Z" 1 0) votedGame = (m, Ok next)
       /\ next = evalWinner (updateTarget 0 (fun q => with_hp (hp q - 1) q) votedGame)
       /\ m = mutate 1 (fun p => with_ap (ap p - 1) p) votedGame.
Proof.
  split; [reflexivity |]. split.
  - apply (fire_rule votedGame "2023-09-11T05:00:00.000Z" 0 3 (tank 2 2 2 3 3)
             eq_refl eq_refl eq_refl eq_refl).
    split; [simpl; lia |]. eexists. split; [reflexivity |]. vm_compute. discriminate.
  - eexists _, _. split; [reflexivity |].
    destruct (fire_rule votedGame "2023-09-11T05:00:00.000Z" 1 0 (tank 2 3 2 2 1)
                eq_refl eq_refl eq_refl eq_refl) as [_ Hhit].
    apply (Hhit _ _ (tank 2 2 2 3 3) eq_refl eq_refl). simpl. lia.
Defined.

(** X8.  On a started, undecided game, a GIFT_AP by an existing,
    non-disqualified player succeeds exactly when the actor has an action
    point, the target is a player index, alive, and within range as the code
    measures it.  The returned state is the input with one action point more
    for the target and the win condition evaluated; the action point of the
    actor is taken from the input state object, not from the returned state. *)
Theorem gift_ap_rule (s : GameState) (t : string) (player target : Z)
    (pState : GamePlayerState)
    (Hw : winner s = None)
    (Ht : str_le t (startAt (config s)) = false)
    (Hp : js_get (playerStates s) player = Some pState)
    (Hdq : disqualified pState = false) :
  ((exists m next, processEvent (GIFT_AP t player target) s = (m, Ok next))
   <-> 1 <= ap pState
       /\ exists tState, js_get (playerStates s) target = Some tState
                         /\ alive tState = true
                         /\ distance tState pState <= range pState)
  /\ (forall m next,
        processEvent (GIFT_AP t player target) s = (m, Ok next) ->
        next = evalWinner (updateTarget target (fun q => with_ap (ap q + 1) q) s)
        /\ m = mutate player (fun p => with_ap (ap p - 1) p) s).
Proof.
  unfold processEvent. rewrite Hw. simpl. rewrite Ht, Hp, Hdq.
  rewrite (cloneState_undecided s Hw). unfold processGiftAP. split; [split |].
  - intros (m & next & Hok). revert Hok.
    destruct (Z.ltb_spec (ap pState) 1); [done |].
    destruct (badTarget s target) eqn:Hbad; [done |].
    apply badTarget_spec in Hbad as [tState HtS]. rewrite HtS.
    destruct (alive tState) eqn:Halive; [| done]. simpl.
    destruct (Z.gtb_spec (distance tState pState) (range pState)); [done |].
    intros _. split; [lia |]. exists tState. split; [done |]. split; [done | lia].
  - intros (Hap & tState & HtS & Halive & Hdist).
    destruct (Z.ltb_spec (ap pState) 1); [lia |].
    assert (Hbad : badTarget s target = false) by (apply badTarget_spec; eauto).
    assert (Hd : (distance tState pState >? range pState) = false)
      by (rewrite Z.gtb_ltb; apply Z.ltb_ge; lia).
    rewrite Hbad, HtS, Halive, Hd. simpl. eauto.
  - intros m next. branch; by intros [= <- <-].
Qed.

Lemma gift_ap_rule_witness :
  js_get (playerStates midGame) 0 = Some (tank 2 2 2 3 3)
  /\ exists m next,
       processEvent (GIFT_AP "2023-09-11T05:00:00.000Z" 0 1) midGame = (m, Ok next)
       /\ playerStates next = [tank 2 2 2 3 3; tank 2 3 2 3 1; tank 4 4 2 1 3]
       /\ playerStates m = [tank 2 2 2 2 3; tank 2 3 2 2 1; tank 4 4 2 1 3].
Proof.
  split; [reflexivity |].
  destruct (gift_ap_rule midGame "2023-09-11T05:00:00.000Z" 0 1 (tank 2 2 2 3 3)
              eq_refl eq_refl eq_refl eq_refl) as [[_ Hsucc] Heffect].
  destruct Hsucc as (m & next & Hok).
  { split; [simpl; lia |]. exists (tank 2 3 2 2 1).
    split; [reflexivity |]. split; [reflexivity |]. vm_compute. discriminate. }
  exists m, next. split; [exact Hok |].
  destruct (Heffect m next Hok) as [-> ->]. split; reflexivity.
Defined.

(** X9.  On a started, undecided game, a GIFT_HP by an existing,
    non-disqualified player succeeds exactly when the actor has a hit point,
    the target is a player index and within range as the code measures it;
    a lack of hit points is reported with the message of the action points.
    The target need not be alive and is not revived: the returned state is
    the input with one hit point more for the target and the win condition
    evaluated.  The hit point of the actor, and its death at [hp <= 0], are
    written to the input state object. *)
Theorem gift_hp_rule (s : GameState) (t : string) (player target : Z)
    (pState : GamePlayerState)
    (Hw : winner s = None)
    (Ht : str_le t (startAt (config s)) = false)
    (Hp : js_get (playerStates s) player = Some pState)
    (Hdq : disqualified pState = false) :
  ((exists m next, processEvent (GIFT_HP t player target) s = (m, Ok next))
   <-> 1 <= hp pState
       /\ exists tState, js_get (playerStates s) target = Some tState
                         /\ distance tState pState <= range pState)
  /\ (hp pState < 1 ->
      processEvent (GIFT_HP t player target) s = (s, Throw insufficientAP))
  /\ (forall m next,
        processEvent (GIFT_HP t player target) s = (m, Ok next) ->
        next = evalWinner (updateTarget target (fun q => with_hp (hp q + 1) q) s)
        /\ m = (if hp pState - 1 <=? 0
                then mutate player (fun p => with_alive false (with_hp (hp p - 1) p)) s
                else mutate player (fun p => with_hp (hp p - 1) p) s)).
Proof.
  unfold processEvent. rewrite Hw. simpl. rewrite Ht, Hp, Hdq.
  rewrite (cloneState_undecided s Hw). unfold processGiftHP.
  split; [split | split].
  - intros (m & next & Hok). revert Hok.
    destruct (Z.ltb_spec (hp pState) 1); [done |].
    destruct (badTarget s target) eqn:Hbad; [done |].
    apply badTarget_spec in Hbad as [tState HtS]. rewrite HtS.
    destruct (Z.gtb_spec (distance tState pState) (range pState)); [done |].
    intros _. split; [lia |]. exists tState. split; [done | lia].
  - intros (Hhp & tState & HtS & Hdist).
    destruct (Z.ltb_spec (hp pState) 1); [lia |].
    assert (Hbad : badTarget s target = false) by (apply badTarget_spec; eauto).
    assert (Hd : (distance tState pState >? range pState) = false)
      by (rewrite Z.gtb_ltb; apply Z.ltb_ge; lia).
    rewrite Hbad, HtS, Hd. eauto.
  - intros Hhp. by destruct (Z.ltb_spec (hp pState) 1); [| lia].
  - intros m next. branch; intros [= <- <-]; by rewrite ?mutate_mutate.
Qed.

Lemma gift_hp_rule_witness :
  js_get (playerStates votedGame) 0 = Some (tank 2 2 2 3 3)
  /\ js_get (playerStates votedGame) 1 = Some (tank 2 3 2 2 1)
  /\ (exists m next,
        processEvent (GIFT_HP "2023-09-11T05:00:00.000Z" 0 3) votedGame = (m, Ok next)
        /\ playerStates next
           = [tank 2 2 2 3 3; tank 2 3 2 2 1; tank 4 4 2 1 3;
              with_alive false (tank 0 0 2 0 1)]
        /\ js_get (playerStates m) 0 = Some (tank 2 2 2 3 2))
  /\ (exists m next,
        processEvent (GIFT_HP "2023-09-11T05:00:00.000Z" 1 2) votedGame = (m, Ok next)
        /\ js_get (playerStates next) 1 = Some (tank 2 3 2 2 1)
        /\ js_get (playerStates m) 1 = Some (with_alive false (tank 2 3 2 2 0))).
Proof.
  split; [reflexivity |]. split; [reflexivity |]. split.
  - destruct (gift_hp_rule votedGame "2023-09-11T05:00:00.000Z" 0 3 (tank 2 2 2 3 3)
                eq_refl eq_refl eq_refl eq_refl) as ([_ Hsucc] & _ & Heffect).
    destruct Hsucc as (m & next & Hok).
    { split; [simpl; lia |]. exists (with_alive false (tank 0 0 2 0 0)).
      split; [reflexivity |]. vm_compute. discriminate. }
    exists m, next. split; [exact Hok |].
    destruct (Heffect m next Hok) as [-> ->]. split; reflexivity.
  - destruct (gift_hp_rule votedGame "2023-09-11T05:00:00.000Z" 1 2 (tank 2 3 2 2 1)
                eq_refl eq_refl eq_refl eq_refl) as ([_ Hsucc] & _ & Heffect).
    destruct Hsucc as (m & next & Hok).
    { split; [simpl; lia |]. exists (tank 4 4 2 1 3).
      split; [reflexivity |]. vm_compute. discriminate. }
    exists m, next. split; [exact Hok |].
    destruct (Heffect m next Hok) as [-> ->]. split; reflexivity.
Defined.

(** X10.  On a started, undecided game, an UPGRADE by an existing,
    non-disqualified player succeeds exactly when the actor has three action
    points.  The state it returns is the input state with the win condition
    evaluated: the three points are taken and the range is raised on the
    input state object only. *)
Theorem upgrade_rule (s : GameState) (t : string) (player : Z)
    (pState : GamePlayerState)
    (Hw : winner s = None)
    (Ht : str_le t (startAt (config s)) = false)
    (Hp : js_get (playerStates s) player = Some pState)
    (Hdq : disqualified pState = false) :
  (ap pState < 3 -> processEvent (UPGRADE t player) s = (s, Throw insufficientAP))
  /\ (3 <= ap pState ->
      processEvent (UPGRADE t player) s
      = (mutate player (fun p => with_range (range p + 1) (with_ap (ap p - 3) p)) s,
         Ok (evalWinner s))).
Proof.
  unfold processEvent. rewrite Hw. simpl. rewrite Ht, Hp, Hdq.
  rewrite (cloneState_undecided s Hw). unfold processUpgrade.
  split; intros Hap; destruct (Z.ltb_spec (ap pState) 3); done || lia.
Qed.

Lemma upgrade_rule_witness :
  js_get (playerStates midGame) 0 = Some (tank 2 2 2 3 3)
  /\ js_get (playerStates midGame) 1 = Some (tank 2 3 2 2 1)
  /\ processEvent (UPGRADE "2023-09-11T05:00:00.000Z" 0) midGame
     = (with_playerStates [tank 2 2 3 0 3; tank 2 3 2 2 1; tank 4 4 2 1 3] midGame,
        Ok midGame)
  /\ processEvent (UPGRADE "2023-09-11T05:00:00.000Z" 1) midGame
     = (midGame, Throw insufficientAP).
Proof.
  split; [reflexivity |]. split; [reflexivity |]. split.
  - apply (upgrade_rule midGame "2023-09-11T05:00:00.000Z" 0 (tank 2 2 2 3 3)
             eq_refl eq_refl eq_refl eq_refl). simpl. lia.
  - apply (upgrade_rule midGame "2023-09-11T05:00:00.000Z" 1 (tank 2 3 2 2 1)
             eq_refl eq_refl eq_refl eq_refl). simpl. lia.
Defined.

(** ** Further properties: what no transition undoes *)

Lemma keeps_refl (p : GamePlayerState) : keeps p p.
Proof. by repeat split. Qed.

Lemma keeps_trans (p q r : GamePlayerState) : keeps p q -> keeps q r -> keeps p r.
Proof. intros (? & ? & ?) (? & ? & ?). repeat split; auto. Qed.

Lemma allKeep_refl (ps : list GamePlayerState) : allKeep ps ps.
Proof. intros j p Hp. eauto using keeps_refl. Qed.

Lemma allKeep_trans (ps qs rs : list GamePlayerState) :
  allKeep ps qs -> allKeep qs rs -> allKeep ps rs.
Proof.
  intros H1 H2 j p Hp. destruct (H1 j p Hp) as (q & Hq & Hpq).
  destruct (H2 j q Hq) as (r & Hr & Hqr). eauto using keeps_trans.
Qed.

Lemma allKeep_alter (f : GamePlayerState -> GamePlayerState) (i : nat)
    (ps : list GamePlayerState) :
  (forall p, keeps p (f p)) -> allKeep ps (alter f i ps).
Proof.
  intros Hf j p Hp. destruct (decide (i = j)) as [-> | Hne].
  - rewrite list_lookup_alter_eq, Hp. simpl. eauto.
  - rewrite list_lookup_alter_ne by done. eauto using keeps_refl.
Qed.

Lemma allKeep_tick (c : list Z) (ps : list GamePlayerState) :
  allKeep ps (grantAP c 0 (map tickDisqualify ps)).
Proof.
  intros j p Hp. rewrite grantAP_lookup, list_lookup_fmap, Hp. simpl.
  eexists. split; [reflexivity |].
  unfold tickDisqualify. destruct (placed p) eqn:Hpl.
  - destruct (negb (alive p) || negb (placed p)); by repeat split.
  - simpl. by repeat split.
Qed.

Lemma step_allKeep (s next : GameState) :
  step s next -> allKeep (playerStates s) (playerStates next).
Proof.
  intros [e He]. destruct (processEvent e s) as [m r] eqn:Hev. simpl in He. subst r.
  revert Hev. unfold processEvent.
  destruct (winner s) eqn:Hw; [done |].
  destruct (str_le _ _); [done |].
  rewrite (cloneState_undecided s Hw).
  destruct (eventPlayer e) as [player|] eqn:Hp.
  - destruct (js_get (playerStates s) player) as [pState|]; [| done].
    destruct (disqualified pState); [done |].
    destruct e; try done; unfold_transitions; branch; intros [= <- <-];
      rewrite evalWinner_playerStates; simpl;
      repeat (first [ apply allKeep_refl
                    | eapply allKeep_trans;
                      [| apply allKeep_alter; intros q; by repeat split] ]).
  - unfold processTick. destruct (tallyVotes _ _ _ _); [| done].
    intros [= <- <-]. rewrite evalWinner_playerStates. simpl. apply allKeep_tick.
Qed.

(** X11.  No sequence of successful transitions undoes a disqualification, a
    death or a placement: a player that is disqualified, not alive or placed
    in a state still is in every state reached from it. *)
Theorem no_transition_revives (s s' : GameState) (j : nat) (p : GamePlayerState)
    (Hreach : rtc step s s')
    (Hp : playerStates s !! j = Some p) :
  exists p',
    playerStates s' !! j = Some p'
    /\ (disqualified p = true -> disqualified p' = true)
    /\ (alive p = false -> alive p' = false)
    /\ (placed p = true -> placed p' = true).
Proof.
  enough (H : allKeep (playerStates s) (playerStates s')) by exact (H j p Hp).
  clear j p Hp. induction Hreach as [s | s s1 s' Hstep _ IH].
  - apply allKeep_refl.
  - eapply allKeep_trans; [by apply step_allKeep | exact IH].
Qed.

Lemma no_transition_revives_witness :
  rtc step votedGame
    (evalWinner (updateTarget 3 (fun q => with_hp (hp q + 1) q) votedGame))
  /\ playerStates votedGame !! 3%nat = Some (with_alive false (tank 0 0 2 0 0))
  /\ exists p',
       playerStates (evalWinner (updateTarget 3 (fun q => with_hp (hp q + 1) q) votedGame))
         !! 3%nat = Some p'
       /\ alive p' = false.
Proof.
  assert (Hreach : rtc step votedGame
            (evalWinner (updateTarget 3 (fun q => with_hp (hp q + 1) q) votedGame))).
  { apply rtc_once. exists (GIFT_HP "2023-09-11T05:00:00.000Z" 0 3). reflexivity. }
  split; [exact Hreach |]. split; [reflexivity |].
  destruct (no_transition_revives _ _ 3%nat _ Hreach eq_refl) as (p' & Hp' & _ & Hdead & _).
  exists p'. split; [exact Hp' | apply Hdead; reflexivity].
Defined.

(** The rule [hp <= 0 -> alive = false] is kept by a TICK: it only clears
    [alive] and adds action points. *)
Lemma tick_keeps_hp_rule (c : list Z) (ps : list GamePlayerState) :
  Forall (fun p => hp p <= 0 -> alive p = false) ps ->
  Forall (fun p => hp p <= 0 -> alive p = false) (grantAP c 0 (map tickDisqualify ps)).
Proof.
  rewrite !Forall_lookup. intros H j q.
  rewrite grantAP_lookup, list_lookup_fmap.
  destruct (ps !! j) as [p|] eqn:Hp; [| done]. simpl. intros [= <-].
  specialize (H j p Hp). unfold tickDisqualify.
  destruct (placed p); simpl;
    repeat match goal with |- context [if ?b then _ else _] => destruct b end;
    simpl; auto.
Qed.

(** Every successful transition keeps the rule [hp <= 0 -> alive = false]: if
    the players of the input state meet it, so do the players of the returned
    state and those of the input state object after the call.  FIRE clears
    [alive] of a target whose [hp] it brings to [<= 0]; GIFT_HP clears [alive]
    of an actor whose [hp] it brings to [<= 0] and raises the [hp] of the
    target without reviving it; the other transitions leave [hp] alone and at
    most clear [alive]. *)
Lemma transitions_keep_hp_rule (e : GameEvent) (s m next : GameState) :
  processEvent e s = (m, Ok next) ->
  Forall (fun p => hp p <= 0 -> alive p = false) (playerStates s) ->
  Forall (fun p => hp p <= 0 -> alive p = false) (playerStates next)
  /\ Forall (fun p => hp p <= 0 -> alive p = false) (playerStates m).
Proof.
  unfold processEvent.
  destruct (winner s) eqn:Hw; [done |].
  destruct (str_le _ _); [done |].
  rewrite (cloneState_undecided s Hw).
  destruct (eventPlayer e) as [player|] eqn:Hp.
  - destruct (js_get (playerStates s) player) as [pState|] eqn:HpS; [| done].
    destruct (disqualified pState); [done |].
    apply js_get_lookup in HpS as [_ HpS].
    destruct e; try done; unfold_transitions; branch; intros [= <- <-] Hs;
      rewrite evalWinner_playerStates; simpl;
      repeat match goal with
        | H : js_get _ _ = Some _ |- _ => apply js_get_lookup in H as [_ H]
        | H : (_ <=? _) = _ |- _ => first [apply Z.leb_le in H | apply Z.leb_gt in H]
        | H : (_ <? _) = _ |- _ => first [apply Z.ltb_lt in H | apply Z.ltb_ge in H]
        end;
      rewrite <- ?list_alter_compose;
      split; try done;
      (apply Forall_alter; [done |]); intros q Hq; simpl; intros Hinv;
      try done; simplify_eq; simpl in *; intros;
      first [done | lia | apply Hinv; lia].
  - unfold processTick. destruct (tallyVotes _ _ _ _); [| done].
    intros [= <- <-] Hs. rewrite evalWinner_playerStates. simpl.
    split; [by apply tick_keeps_hp_rule | done].
Qed.

(** X12.  PLACE never stores where the tank was put, and a MOVE by a player
    whose stored coordinates are still [(-1, -1)] always fails, whatever the
    direction, leaving the state untouched. *)
Theorem move_from_unset_coordinates_fails (s : GameState) (t : string) (player : Z)
    (dir : string) (pState : GamePlayerState)
    (Hp : js_get (playerStates s) player = Some pState)
    (Hrow : locRow pState = -1) (Hcol : locCol pState = -1) :
  exists x, processEvent (MOVE t player dir) s = (s, Throw x).
Proof.
  unfold processEvent. destruct (winner s) eqn:Hw; [eauto |].
  destruct (str_le _ _); [eauto |]. simpl. rewrite Hp.
  destruct (disqualified pState); [eauto |].
  unfold processMove. rewrite Hrow, Hcol.
  destruct (negb (placed pState)); [eauto |].
  destruct (negb (alive pState)); [eauto |].
  destruct (ap pState <? 1); [eauto |].
  destruct (getVector dir) as [[dr dc]|] eqn:Hvec; [| eauto].
  assert (Hoob : outOfBounds (cloneState s) (-1 + dr) (-1 + dc) = true).
  { unfold outOfBounds. apply getVector_cases in Hvec.
    destruct Hvec as [[-> ->] | [[-> ->] | [-> ->]]]; simpl;
      by rewrite ?orb_true_r. }
  rewrite Hoob. eauto.
Qed.

Lemma move_from_unset_coordinates_fails_witness :
  js_get (playerStates lobbyGame) 0 = Some (with_ap 1 (with_hp 3 initPlayerState))
  /\ exists x,
       processEvent (MOVE "2023-09-11T05:00:00.000Z" 0 "DOWN")
         (mutate 0 (with_placed true) lobbyGame)
       = (mutate 0 (with_placed true) lobbyGame, Throw x).
Proof.
  split; [reflexivity |].
  apply (move_from_unset_coordinates_fails (mutate 0 (with_placed true) lobbyGame)
           "2023-09-11T05:00:00.000Z" 0 "DOWN"
           (with_placed true (with_ap 1 (with_hp 3 initPlayerState))));
    reflexivity.
Defined.

(** ** Further properties: the replay *)

(** More fuel does not change what a finished run answers. *)
Lemma replay_fuel_mono process until interval :
  forall fuel i k stored cur trace o,
    replay fuel process until interval i k stored cur trace = Some o ->
    forall fuel', (fuel <= fuel')%nat ->
      replay fuel' process until interval i k stored cur trace = Some o.
Proof.
  induction fuel as [|fuel IH]; intros i k stored cur trace o Hrun fuel' Hle; [done |].
  destruct fuel' as [|fuel']; [lia |].
  revert Hrun. rewrite !replay_unfold.
  destruct (pick process interval i k) as [[ev i'] k'].
  destruct (str_ge _ _); [intros Hrun; apply (IH _ _ _ _ _ _ Hrun); lia |].
  destruct (str_gt _ _ || decided _); [done |].
  destruct (processEvent ev (current stored cur)) as [m [next|x]]; [| done].
  intros Hrun. apply (IH _ _ _ _ _ _ Hrun). lia.
Qed.

(** The loop comes to an end once the schedule has an instant after both
    [updatedAt] and the query instant. *)
Lemma replay_returns process until interval K :
  str_ge (updatedAt process) (interval K) = false ->
  str_gt (interval K) until = true ->
  forall fuel i k stored cur trace,
    (k <= K)%nat ->
    (length (events process) - i + (K - k) < fuel)%nat ->
    is_Some (replay fuel process until interval i k stored cur trace).
Proof.
  intros Hafter Hpast.
  induction fuel as [|fuel IH]; intros i k stored cur trace Hk Hfuel; [lia |].
  rewrite replay_unfold.
  destruct (pick_cases process interval i k) as [(e & He & ->) | ->].
  - apply lookup_lt_Some in He.
    destruct (str_ge (updatedAt process) (submittedAt e)); [apply IH; lia |].
    destruct (str_gt (submittedAt e) until || decided (current stored cur)); [done |].
    destruct (processEvent e (current stored cur)) as [m [next|x]]; [| done].
    apply IH; lia.
  - simpl submittedAt.
    destruct (str_ge (updatedAt process) (interval k)) eqn:Hskip.
    + assert (k <> K) by (intros ->; congruence). apply IH; lia.
    + destruct (decide (k = K)) as [-> | Hne]; [by rewrite Hpast |].
      destruct (str_gt (interval k) until || decided (current stored cur)); [done |].
      destruct (processEvent _ (current stored cur)) as [m [next|x]]; [| done].
      apply IH; lia.
Qed.

(** X13.  [calculateState] returns or throws, it does not loop, as soon as
    the schedule has an instant that is after both [process.updatedAt] and
    the query instant: with the [K]-th instant so, the loop is over within
    [events.length + K + 1] turns, and its answer is the same however many
    more turns it is allowed. *)
Theorem calculateState_returns
    (parseExpression : string -> string -> string -> nat -> string)
    (until : string) (process : GameProcessState) (K : nat)
    (Hafter : str_ge (updatedAt process) (scheduleOf parseExpression process K) = false)
    (Hpast : str_gt (scheduleOf parseExpression process K) until = true) :
  exists o,
    forall fuel, (length (events process) + K < fuel)%nat ->
      calculateState parseExpression fuel until process = Some o.
Proof.
  destruct (replay_returns process until (scheduleOf parseExpression process) K
              Hafter Hpast (S (length (events process) + K)) 0 0 (state process)
              Stored []) as [o Ho]; [lia | lia |].
  exists o. intros fuel Hfuel.
  apply (replay_fuel_mono _ _ _ _ _ _ _ _ _ _ Ho). lia.
Qed.

Lemma calculateState_returns_witness :
  str_ge (updatedAt lateProcess) (scheduleOf weekdayNoonSeoul lateProcess 1) = false
  /\ str_gt (scheduleOf weekdayNoonSeoul lateProcess 1) "2023-09-11T06:00:00.000Z" = true
  /\ exists o, calculateState weekdayNoonSeoul 3 "2023-09-11T06:00:00.000Z" lateProcess
               = Some o.
Proof.
  split; [reflexivity |]. split; [reflexivity |].
  destruct (calculateState_returns weekdayNoonSeoul "2023-09-11T06:00:00.000Z"
              lateProcess 1 eq_refl eq_refl) as [o Ho].
  exists o. apply Ho. simpl. lia.
Defined.

(** What a finished run applied lies in the window and is taken from the log
    or the schedule. *)
Lemma replay_window process until interval :
  forall fuel i k stored cur trace o,
    replay fuel process until interval i k stored cur trace = Some o ->
    Forall (inWindow process until interval) trace ->
    Forall (inWindow process until interval) (applied o).
Proof.
  induction fuel as [|fuel IH]; intros i k stored cur trace o; [done |].
  rewrite replay_unfold.
  pose proof (pick_cases process interval i k) as Hpick.
  destruct (pick process interval i k) as [[ev i'] k'].
  destruct (str_ge _ _) eqn:Hskip; [apply IH |].
  destruct (str_gt (submittedAt ev) until) eqn:Hpast; simpl;
    [by intros [= <-] |].
  destruct (decided _); [by intros [= <-] |].
  destruct (processEvent ev (current stored cur)) as [m [next|x]];
    [| by intros [= <-]].
  intros Hrun Htrace. apply (IH _ _ _ _ _ _ Hrun).
  apply Forall_app. split; [done |]. constructor; [| done].
  split; [done |]. split; [done |].
  destruct Hpick as [(e & He & [= -> _ _]) | [= -> _ _]].
  - left. by eapply list_elem_of_lookup_2.
  - right. eauto.
Qed.

(** X14.  Every event [calculateState] applies is strictly after
    [process.updatedAt] and not after the query instant, and is either an
    event of the log or a TICK at an instant of the schedule. *)
Theorem applied_events_in_window
    (parseExpression : string -> string -> string -> nat -> string)
    (fuel : nat) (until : string) (process : GameProcessState) (o : outcome)
    (Hrun : calculateState parseExpression fuel until process = Some o) :
  Forall (fun e =>
            str_ge (updatedAt process) (submittedAt e) = false
            /\ str_gt (submittedAt e) until = false
            /\ (e ∈ events process
                \/ exists n, e = TICK (scheduleOf parseExpression process n)))
    (applied o).
Proof. exact (replay_window _ _ _ _ _ _ _ _ _ _ Hrun (Forall_nil_2 _)). Qed.

Lemma applied_events_in_window_witness :
  exists o,
    calculateState weekdayNoonSeoul 3 "2023-09-11T06:00:00.000Z" lateProcess = Some o
    /\ Forall (fun e => str_gt (submittedAt e) "2023-09-11T06:00:00.000Z" = false)
         (applied o).
Proof.
  eexists. split; [reflexivity |].
  eapply Forall_impl;
    [exact (applied_events_in_window weekdayNoonSeoul 3 "2023-09-11T06:00:00.000Z"
              lateProcess _ eq_refl) |].
  intros e (_ & H & _). exact H.
Defined.





Lemma replay_applied_extends process until interval :
  forall fuel i k stored cur trace o,
    replay fuel process until interval i k stored cur trace = Some o ->
    exists rest, applied o = (trace ++ rest)%list.
Proof.
  induction fuel as [|fuel IH]; intros i k stored cur trace o; [done |].
  rewrite replay_unfold.
  destruct (pick process interval i k) as [[ev i'] k'].
  destruct (str_ge (updatedAt process) (submittedAt ev)); [apply IH |].
  destruct (str_gt (submittedAt ev) until || decided (current stored cur)).
  { intros [= <-]. exists []. by rewrite app_nil_r. }
  destruct (processEvent ev (current stored cur)) as [m [next|x]].
  - intros (rest & ->)%IH. exists (ev :: rest). by rewrite <- app_assoc.
  - intros [= <-]. exists []. by rewrite app_nil_r.
Qed.

(** Only the first call of [processEvent] of a run works on the stored
    object. *)
Lemma replay_fresh_keeps_stored process until interval :
  forall fuel i k stored s trace o,
    replay fuel process until interval i k stored (Fresh s) trace = Some o ->
    stored_after o = stored.
Proof.
  induction fuel as [|fuel IH]; intros i k stored s trace o; [done |].
  rewrite replay_unfold.
  destruct (pick process interval i k) as [[ev i'] k'].
  destruct (str_ge (updatedAt process) (submittedAt ev)); [apply IH |].
  destruct (str_gt (submittedAt ev) until || decided (current stored (Fresh s)));
    [by intros [= <-] |].
  destruct (processEvent ev (current stored (Fresh s))) as [m [next|x]];
    [apply IH | by intros [= <-]].
Qed.

Lemma replay_stored process until interval :
  forall fuel i k stored o,
    replay fuel process until interval i k stored Stored [] = Some o ->
    match applied o with
    | e :: _ => stored_after o = (processEvent e stored).1
    | [] =>
        match answer o with
        | Ok s' => stored_after o = stored /\ s' = stored
        | Throw x => exists e, (processEvent e stored) = (stored_after o, Throw x)
        end
    end.
Proof.
  induction fuel as [|fuel IH]; intros i k stored o; [done |].
  rewrite replay_unfold.
  destruct (pick process interval i k) as [[ev i'] k'].
  destruct (str_ge (updatedAt process) (submittedAt ev)); [apply IH |].
  destruct (str_gt (submittedAt ev) until || decided (current stored Stored));
    [by intros [= <-] |].
  simpl current.
  destruct (processEvent ev stored) as [m [next|x]] eqn:Hev.
  - intros Hrun.
    pose proof (replay_fresh_keeps_stored _ _ _ _ _ _ _ _ _ _ Hrun) as ->.
    destruct (replay_applied_extends _ _ _ _ _ _ _ _ _ _ Hrun) as (rest & Happ).
    simpl in Happ. rewrite Happ. by rewrite Hev.
  - intros [= <-]. simpl. eauto.
Qed.

(** X16.  Of all the events a call of [calculateState] applies, only the
    first can change the stored [process.state]: after the call that object
    holds what [processEvent] left of it when it was handed the first
    applied event.  A call that applies nothing and returns, returns
    [process.state] itself, untouched. *)
Theorem only_first_event_touches_stored
    (parseExpression : string -> string -> string -> nat -> string)
    (fuel : nat) (until : string) (process : GameProcessState) (o : outcome)
    (Hrun : calculateState parseExpression fuel until process = Some o) :
  match applied o with
  | e :: _ => stored_after o = (processEvent e (state process)).1
  | [] =>
      forall s', answer o = Ok s' -> stored_after o = state process /\ s' = state process
  end.
Proof.
  pose proof (replay_stored _ _ _ _ _ _ _ _ Hrun) as H.
  destruct (applied o); [| done].
  intros s' Hs'. by rewrite Hs' in H.
Qed.

Lemma only_first_event_touches_stored_witness :
  exists o,
    calculateState weekdayNoonSeoul 3 "2023-09-11T04:00:00.000Z" earlyProcess = Some o
    /\ applied o = [TICK "2023-09-11T03:00:00.000Z"]
    /\ stored_after o = midGame.
Proof.
  eexists. split; [reflexivity |]. split; [reflexivity |].
  exact (only_first_event_touches_stored weekdayNoonSeoul 3 "2023-09-11T04:00:00.000Z"
           earlyProcess _ eq_refl).
Defined.

Lemma initGame_config (cfg : GameConfig) (s0 : GameState) :
  initGame cfg = Ok s0 -> config s0 = cfg.
Proof.
  unfold initGame. simpl.
  destruct (negb (valid_array_length (height (dimensions cfg)))); [done |].
  destruct ((0 <? height (dimensions cfg))
            && negb (valid_array_length (width (dimensions cfg)))); [done |].
  intros [= <-]. simpl. rewrite copy_players.
  by destruct cfg as [pl [h w] st ti tz].
Qed.



(** A logged event that is not after the pending tick is never taken, and
    neither is any event behind it in the log. *)
Lemma replay_blocked process until interval (e : GameEvent) (i : nat) :
  (forall n, str_le (interval n) (interval (S n)) = true) ->
  events process !! i = Some e ->
  forall fuel k stored cur trace o,
    str_le (submittedAt e) (interval k) = true ->
    replay fuel process until interval i k stored cur trace = Some o ->
    Forall (fun ev => exists n, ev = TICK (interval n)) trace ->
    Forall (fun ev => exists n, ev = TICK (interval n)) (applied o).
Proof.
  intros Hmono He.
  induction fuel as [|fuel IH]; intros k stored cur trace o Hearly; [done |].
  rewrite replay_unfold. unfold pick. rewrite He, Hearly.
  assert (Hnext : str_le (submittedAt e) (interval (S k)) = true)
    by (eapply str_le_trans; [exact Hearly | apply Hmono]).
  destruct (str_ge (updatedAt process) (submittedAt (TICK (interval k))));
    [by apply IH |].
  destruct (str_gt (submittedAt (TICK (interval k))) until || decided (current stored cur));
    [by intros [= <-] |].
  destruct (processEvent (TICK (interval k)) (current stored cur)) as [m [next|x]];
    [| by intros [= <-]].
  intros Hrun Htrace. apply (IH _ _ _ _ _ Hnext Hrun).
  apply Forall_app. split; [done |]. constructor; [eauto | done].
Qed.

(** X18.  With a schedule whose instants do not go back, a log whose first
    event is not strictly after the first instant of the schedule is never
    read: [calculateState] applies ticks only, whatever the log holds and
    whatever the query instant. *)
Theorem early_event_blocks_the_log
    (parseExpression : string -> string -> string -> nat -> string)
    (fuel : nat) (until : string) (process : GameProcessState) (o : outcome)
    (e : GameEvent)
    (Hmono : forall n, str_le (scheduleOf parseExpression process n)
                         (scheduleOf parseExpression process (S n)) = true)
    (Hfirst : events process !! 0%nat = Some e)
    (Hearly : str_le (submittedAt e) (scheduleOf parseExpression process 0) = true)
    (Hrun : calculateState parseExpression fuel until process = Some o) :
  Forall (fun ev => exists n, ev = TICK (scheduleOf parseExpression process n))
    (applied o).
Proof.
  exact (replay_blocked process until (scheduleOf parseExpression process) e 0
           Hmono Hfirst fuel 0 (state process) Stored [] o Hearly Hrun
           (Forall_nil_2 _)).
Qed.

Lemma weekdayNoonSeoul_mono (expr currentDate tz : string) (n : nat) :
  str_le (weekdayNoonSeoul expr currentDate tz n)
    (weekdayNoonSeoul expr currentDate tz (S n)) = true.
Proof.
  unfold weekdayNoonSeoul.
  do 8 (destruct n as [|n]; [reflexivity |]).
  destruct n; reflexivity.
Qed.

Lemma early_event_blocks_the_log_witness :
  events earlyProcess !! 0%nat = Some (UPGRADE "2023-09-11T02:00:00.000Z" 0)
  /\ str_le "2023-09-11T02:00:00.000Z" (scheduleOf weekdayNoonSeoul earlyProcess 0) = true
  /\ exists o,
       calculateState weekdayNoonSeoul 4 "2023-09-12T04:00:00.000Z" earlyProcess = Some o
       /\ applied o = [TICK "2023-09-11T03:00:00.000Z"; TICK "2023-09-12T03:00:00.000Z"]
       /\ Forall (fun ev => exists n, ev = TICK (scheduleOf weekdayNoonSeoul earlyProcess n))
            (applied o).
Proof.
  split; [reflexivity |]. split; [reflexivity |].
  eexists. split; [reflexivity |]. split; [reflexivity |].
  apply (early_event_blocks_the_log weekdayNoonSeoul 4 "2023-09-12T04:00:00.000Z"
           earlyProcess _ (UPGRADE "2023-09-11T02:00:00.000Z" 0)).
  - intros n. apply weekdayNoonSeoul_mono.
  - reflexivity.
  - reflexivity.
  - reflexivity.
Defined.

(** ** Further properties: initGame, directions, voting *)

(** X19.  [initGame] returns exactly when the height is an array length and,
    for a board with rows, so is the width (it dies of a RangeError
    otherwise).  The state it returns has the given configuration, one fresh
    player state and one empty vote slot per configured player, a board of
    [height] rows of [width] empty cells each, and no winner. *)
Theorem initGame_shape (cfg : GameConfig) :
  ((exists s0, initGame cfg = Ok s0)
   <-> 0 <= height (dimensions cfg) <= 4294967295
       /\ (height (dimensions cfg) = 0 \/ 0 <= width (dimensions cfg) <= 4294967295))
  /\ ((forall s0, initGame cfg <> Ok s0) -> initGame cfg = Throw RangeError)
  /\ (forall s0, initGame cfg = Ok s0 ->
        config s0 = cfg
        /\ playerStates s0 = map (fun _ => initPlayerState) (players cfg)
        /\ votes s0 = map (fun _ => None) (players cfg)
        /\ length (boardState s0) = Z.to_nat (height (dimensions cfg))
        /\ Forall (fun r => length r = Z.to_nat (width (dimensions cfg))
                            /\ Forall (fun c => c = None) r) (boardState s0)
        /\ winner s0 = None).
Proof.
  split; [| split].
  - unfold initGame, valid_array_length. simpl.
    destruct (Z.leb_spec 0 (height (dimensions cfg)));
      destruct (Z.leb_spec (height (dimensions cfg)) 4294967295);
      destruct (Z.ltb_spec 0 (height (dimensions cfg)));
      destruct (Z.leb_spec 0 (width (dimensions cfg)));
      destruct (Z.leb_spec (width (dimensions cfg)) 4294967295);
      simpl; split; try (intros [s0 [=]]); try (intros [? ?]); eauto; lia.
  - unfold initGame.
    destruct (negb _); [done |]. destruct (_ && _); [done |].
    intros H. by destruct (H _ eq_refl).
  - intros s0 Hinit. split; [by apply initGame_config |].
    revert Hinit. unfold initGame.
    destruct (negb _); [done |]. destruct (_ && _); [done |].
    intros [= <-]. simpl. repeat split.
    + by rewrite map_map.
    + apply length_replicate.
    + apply Forall_replicate. split; [apply length_replicate |].
      by apply Forall_replicate.
Qed.

Lemma initGame_shape_witness :
  initGame testConfig = Ok testGame
  /\ length (boardState testGame) = 6%nat
  /\ Forall (fun r => length r = 6%nat /\ Forall (fun c => c = None) r)
       (boardState testGame)
  /\ initGame {| players := []; dimensions := {| height := 2; width := -1 |};
                 startAt := ""; turnInterval := ""; turnIntervalTZ := "" |}
     = Throw RangeError.
Proof.
  destruct (initGame_shape testConfig) as (_ & _ & Hshape).
  destruct (Hshape testGame eq_refl) as (_ & _ & _ & Hrows & Hcells & _).
  split; [reflexivity |]. split; [exact Hrows |]. split; [exact Hcells |].
  apply (initGame_shape {| players := []; dimensions := {| height := 2; width := -1 |};
                           startAt := ""; turnInterval := ""; turnIntervalTZ := "" |}).
  intros s0 H. discriminate H.
Defined.

(** X20.  No direction moves a tank to the right: a MOVE that succeeds is a
    step of one cell, and the column the actor ends on (in the input state
    object, where the coordinates are written, and on the board of the
    returned state) is never greater than the one it started from. *)
Theorem no_move_to_the_right (s : GameState) (t : string) (player : Z) (dir : string)
    (m next : GameState) (pState : GamePlayerState)
    (Hok : processEvent (MOVE t player dir) s = (m, Ok next))
    (Hp : js_get (playerStates s) player = Some pState) :
  exists p',
    js_get (playerStates m) player = Some p'
    /\ locCol p' <= locCol pState
    /\ Z.abs (locRow p' - locRow pState) + Z.abs (locCol p' - locCol pState) = 1
    /\ cellOccupied next (locRow p') (locCol p') = Ok true.
Proof.
  revert Hok. unfold processEvent.
  destruct (winner s) eqn:Hw; [done |].
  destruct (str_le _ _); [done |]. simpl. rewrite Hp.
  destruct (disqualified pState); [done |].
  rewrite (cloneState_undecided s Hw). unfold processMove.
  destruct (negb (placed pState)); [done |].
  destruct (negb (alive pState)); [done |].
  destruct (ap pState <? 1); [done |].
  destruct (getVector dir) as [[dr dc]|] eqn:Hvec; [| done].
  destruct (outOfBounds s _ _) eqn:Hoob; [done |].
  destruct (cellOccupied s _ _) as [[|]|] eqn:Hocc; try done.
  destruct (js_get (boardState s) (locRow pState)) as [r0|] eqn:Hr0; [| done].
  intros [= <- <-].
  apply outOfBounds_false in Hoob as [Hrow Hcol].
  apply getVector_cases in Hvec.
  pose proof Hp as [Hplayer Hp']%js_get_lookup.
  eexists. split.
  { apply js_get_lookup. split; [done |]. simpl.
    by rewrite !list_lookup_alter_eq, Hp'. }
  simpl. split; [lia |]. split; [lia |].
  unfold cellOccupied. rewrite evalWinner_boardState.
  destruct (cellOccupied_row _ _ _ _ Hocc) as [r Hr].
  destruct (setCell_read (setCell (locRow pState) (locCol pState) None s)
              (locRow pState + dr) (locCol pState + dc) (Some player)
              (if decide (Z.to_nat (locRow pState) = Z.to_nat (locRow pState + dr))
               then js_set r (locCol pState) None else r))
    as (r' & -> & Hcell); [| lia |].
  - apply js_get_lookup. apply js_get_lookup in Hr as [? Hr].
    split; [done |]. simpl. case_decide as Heq.
    + by rewrite Heq, list_lookup_alter_eq, Hr.
    + by rewrite list_lookup_alter_ne.
  - unfold occupied. by rewrite Hcell.
Qed.

Lemma no_move_to_the_right_witness :
  exists m next p',
    processEvent (MOVE "2023-09-11T05:00:00.000Z" 0 "RIGHT") midGame = (m, Ok next)
    /\ js_get (playerStates midGame) 0 = Some (tank 2 2 2 3 3)
    /\ js_get (playerStates m) 0 = Some p'
    /\ locCol p' <= 2.
Proof.
  eexists _, _.
  destruct (no_move_to_the_right midGame "2023-09-11T05:00:00.000Z" 0 "RIGHT"
              _ _ (tank 2 2 2 3 3) eq_refl eq_refl) as (p' & Hp' & Hcol & _).
  exists p'. split; [reflexivity |]. split; [reflexivity |].
  split; [exact Hp' | exact Hcol].
Defined.

(** X21.  One vote per round: on the state a successful VOTE returns, while
    the game is undecided, every further VOTE of the same player is thrown
    out as a second vote, whatever its target. *)
Theorem vote_once_per_round (s m next : GameState) (t t' : string)
    (player target target' : Z)
    (Hok : processEvent (VOTE t player target) s = (m, Ok next))
    (Hon : winner next = None)
    (Ht' : str_le t' (startAt (config next)) = false) :
  processEvent (VOTE t' player target') next
  = (next, Throw (Error "invalid action: you may only vote once per round")).
Proof.
  revert Hok. unfold processEvent at 1.
  destruct (winner s) eqn:Hw; [done |].
  destruct (str_le (submittedAt (VOTE t player target)) (startAt (config s)));
    [done |]. simpl.
  destruct (js_get (playerStates s) player) as [pState|] eqn:Hp; [| done].
  destruct (disqualified pState) eqn:Hdq; [done |].
  rewrite (cloneState_undecided s Hw). unfold processVote.
  destruct (alive pState) eqn:Halive; [done |].
  destruct (js_get (votes s) player) as [[v|]|]; [done | |];
    (destruct (badVoteTarget s target); [done |]); intros [= <- <-].
  all: unfold processEvent; rewrite Hon; simpl; rewrite Ht';
    rewrite evalWinner_playerStates; simpl; rewrite Hp, Hdq;
    rewrite (cloneState_undecided _ Hon); unfold processVote; rewrite Halive;
    rewrite evalWinner_votes; simpl;
    rewrite js_get_set by (apply js_get_lookup in Hp; lia); done.
Qed.

Lemma vote_once_per_round_witness :
  exists m next,
    processEvent (VOTE "2023-09-11T05:00:00.000Z" 0 2) juryGame = (m, Ok next)
    /\ winner next = None
    /\ processEvent (VOTE "2023-09-11T06:00:00.000Z" 0 2) next
       = (next, Throw (Error "invalid action: you may only vote once per round")).
Proof.
  eexists _, _. split; [reflexivity |]. split; [reflexivity |].
  exact (vote_once_per_round juryGame _ _ "2023-09-11T05:00:00.000Z"
           "2023-09-11T06:00:00.000Z" 0 2 2 eq_refl eq_refl eq_refl).
Defined.

(** ** Further properties: composable handlers *)

Section HandlerFacts.

Context {E U : Type}.
Implicit Types (left right h : @Handlers.EventHandler E U).
Implicit Types (this p a b c : @Handlers.Processor E U).
Implicit Types (transform : @Handlers.Transform U).

(** X22.  [merge(left, right)] hands an event to [left] when [left.isInput]
    takes it and to [right] otherwise, without asking [right.isInput].  If
    [left] reverts what it applies to the events it takes, and [right] what
    it applies to the events [left] does not take, then the merged processor
    reverts whatever it applies: [revert(e, apply(e, s)) = s]. *)
Theorem merge_round_trip left right
    (Hleft : Handlers.reverts (fun e => Handlers.isInput left e = Ok true) left)
    (Hright : Handlers.reverts (fun e => Handlers.isInput left e = Ok false) right) :
  Handlers.reverts (fun _ => True) (Handlers.handler (Handlers.merge left right)).
Proof.
  intros e s s' _. simpl.
  destruct (Handlers.isInput left e) as [[|]|x] eqn:Hin; simpl; [| | done].
  - by apply Hleft.
  - by apply Hright.
Qed.

(** X23.  [this.add(p)] is [merge(p, this)]: the processor added last is
    asked first.  Adding is associative: [a.add(b).add(c)] and
    [a.add(b.add(c))] answer alike to [isInput], [apply] and [revert], on
    every event and state, exceptions of the handlers included. *)
Theorem add_is_associative a b c (e : E) (s : U) :
  Handlers.add a b = Handlers.merge (Handlers.asHandler b) (Handlers.asHandler a)
  /\ Handlers.Processor_isInput (Handlers.add (Handlers.add a b) c) e
     = Handlers.Processor_isInput (Handlers.add a (Handlers.add b c)) e
  /\ Handlers.Processor_apply (Handlers.add (Handlers.add a b) c) e s
     = Handlers.Processor_apply (Handlers.add a (Handlers.add b c)) e s
  /\ Handlers.Processor_revert (Handlers.add (Handlers.add a b) c) e s
     = Handlers.Processor_revert (Handlers.add a (Handlers.add b c)) e s.
Proof.
  split; [reflexivity |].
  destruct a as [[ia aa ra]], b as [[ib ab rb]], c as [[ic ac rc]].
  unfold Handlers.Processor_isInput, Handlers.Processor_apply,
    Handlers.Processor_revert, Handlers.add. simpl.
  unfold Handlers.Processor_isInput, Handlers.Processor_apply,
    Handlers.Processor_revert. simpl.
  destruct (ic e) as [[|]|x]; simpl; [done | | done].
  destruct (ib e) as [[|]|y]; simpl; done.
Qed.

(** X24.  [xf(p, transform)] applies [p] and then the transform, and reverts
    the transform and then [p]: it reverts whatever it applies as soon as [p]
    does and [transform.revert] undoes [transform.apply].  Its [isInput]
    throws a TypeError on every value, so a [merge] that has it on the left
    throws on every event. *)
Theorem xf_round_trip p transform
    (Hp : Handlers.reverts (fun _ => True) (Handlers.handler p))
    (Ht : forall s1 s2,
        Handlers.transform_apply transform s1 = Ok s2 ->
        Handlers.transform_revert transform s2 = Ok s1) :
  Handlers.reverts (fun _ => True) (Handlers.handler (Handlers.xf p transform))
  /\ (forall v, Handlers.Processor_isInput (Handlers.xf p transform) v = Throw TypeError)
  /\ (forall right e s,
        Handlers.Processor_apply
          (Handlers.merge (Handlers.asHandler (Handlers.xf p transform)) right) e s
        = Throw TypeError).
Proof.
  split; [| split; reflexivity].
  intros e s s' _. simpl. unfold Handlers.Processor_apply, Handlers.Processor_revert.
  destruct (Handlers.apply (Handlers.handler p) e s) as [s1|x] eqn:Hs1; simpl; [| done].
  intros Hs'. rewrite (Ht _ _ Hs'). simpl. by apply Hp.
Qed.

End HandlerFacts.

Lemma wordHandler_reverts (word : string) (step : Z) (accepts : string -> Prop) :
  Handlers.reverts accepts (wordHandler word step).
Proof. intros e s s' _ [= <-]. simpl. f_equal. lia. Qed.

Lemma merge_round_trip_witness :
  Handlers.Processor_apply (Handlers.merge (wordHandler "inc" 1) (wordHandler "dec" (-1)))
    "dec" 5 = Ok 4
  /\ Handlers.Processor_revert (Handlers.merge (wordHandler "inc" 1) (wordHandler "dec" (-1)))
       "dec" 4 = Ok 5.
Proof.
  split; [reflexivity |].
  apply (merge_round_trip (wordHandler "inc" 1) (wordHandler "dec" (-1))
           (wordHandler_reverts _ _ _) (wordHandler_reverts _ _ _) "dec" 5 4 I).
  reflexivity.
Defined.

Lemma xf_round_trip_witness :
  Handlers.Processor_apply
    (Handlers.xf {| Handlers.handler := wordHandler "inc" 1 |} negation) "inc" 5 = Ok (-6)
  /\ Handlers.Processor_revert
       (Handlers.xf {| Handlers.handler := wordHandler "inc" 1 |} negation) "inc" (-6) = Ok 5
  /\ Handlers.Processor_isInput
       (Handlers.xf {| Handlers.handler := wordHandler "inc" 1 |} negation) "inc"
     = Throw TypeError.
Proof.
  destruct (xf_round_trip {| Handlers.handler := wordHandler "inc" 1 |} negation)
    as (Hrev & Hinput & _).
  - apply wordHandler_reverts.
  - intros s1 s2 [= <-]. simpl. f_equal. lia.
  - split; [reflexivity |]. split; [| apply Hinput].
    apply (Hrev "inc" 5 (-6) I). reflexivity.
Defined.

(** ** Further properties: validation rules *)

(** What the file prints: the value tried has [n = 2] above
    [arr.length - 1 = 1] and a [test] that is not "asdf". *)
Example rules_res :
  Rules.res
  = Some ["[named: A]: [field: n]: max: value out of bounds, expected: <= 1, got: 2";
          "[named: A]: [field: test]: eq: must equal " ++ Rules.dquote ++ "asdf"
          ++ Rules.dquote ++ ", got: " ++ Rules.dquote ++ "asf" ++ Rules.dquote].
Proof. reflexivity. Qed.

Lemma many_loop {T} (rules : list (Rules.Rule T)) (v : T) (acc : list string) :
  foldl (fun errs r =>
           match Rules.validator r v with
           | Some err => (errs ++ err)%list
           | None => errs
           end) acc rules
  = (acc ++ Rules.allErrors rules v)%list.
Proof.
  revert acc. induction rules as [|r rules IH]; intros acc; simpl.
  - by rewrite app_nil_r.
  - rewrite IH. unfold Rules.allErrors. simpl.
    destruct (Rules.validator r v); simpl; by rewrite ?app_assoc.
Qed.

Lemma many_validator {T} (rules : list (Rules.Rule T)) (v : T) :
  Rules.validator (Rules.many rules) v
  = match Rules.allErrors rules v with
    | [] => None
    | errs => Some errs
    end.
Proof.
  simpl. rewrite many_loop. simpl. by destruct (Rules.allErrors rules v).
Qed.

(** X25.  [many(...rules)] answers the messages of its rules, in the order
    of the rules, and [null] when there is none: it never answers an empty
    list, and it answers [null] exactly when every rule answers [null] or an
    empty list. *)
Theorem many_collects {T} (rules : list (Rules.Rule T)) (v : T) :
  (Rules.validator (Rules.many rules) v = None
   <-> Forall (fun r => Rules.validator r v = None \/ Rules.validator r v = Some [])
         rules)
  /\ (forall errs,
        Rules.validator (Rules.many rules) v = Some errs ->
        errs <> [] /\ errs = Rules.allErrors rules v).
Proof.
  rewrite many_validator. split.
  - assert (Hnil : Rules.allErrors rules v = []
                   <-> Forall (fun r => Rules.validator r v = None
                                        \/ Rules.validator r v = Some []) rules).
    { unfold Rules.allErrors. induction rules as [|r rules IH]; simpl.
      - split; [constructor | done].
      - rewrite Forall_cons, <- IH. split.
        + intros [H1 H2]%app_eq_nil. split; [| done].
          destruct (Rules.validator r v); simpl in *; [right; by subst | by left].
        + intros [[-> | ->] ->]; done. }
    rewrite <- Hnil. by destruct (Rules.allErrors rules v).
  - intros errs. destruct (Rules.allErrors rules v); [done |].
    intros [= <-]. done.
Qed.

(** X26.  [validate] and [many] do not agree on the empty list: [validate]
    throws whatever its validator answers that is not [null], an empty list
    of messages included, while the same rule wrapped in [many] passes. *)
Theorem validate_throws_empty_list {T} (rule : Rules.Rule T) (v : T)
    (Hempty : Rules.validator rule v = Some []) :
  Rules.validate rule v = inl []
  /\ Rules.validate (Rules.many [rule]) v = inr tt.
Proof.
  unfold Rules.validate. rewrite many_validator. unfold Rules.allErrors. simpl.
  by rewrite Hempty.
Qed.

Lemma validate_throws_empty_list_witness :
  Rules.validator (Rules.errMap (fun _ => Some []) Rules.int) 7 = Some []
  /\ Rules.validate (Rules.errMap (fun _ => Some []) Rules.int) 7 = inl []
  /\ Rules.validate (Rules.many [Rules.errMap (fun _ => Some []) Rules.int]) 7 = inr tt.
Proof.
  split; [reflexivity |].
  exact (validate_throws_empty_list (Rules.errMap (fun _ => Some []) Rules.int) 7 eq_refl).
Defined.

(** X27.  A lower and an upper bound put together: [many(min(a), max(b))]
    accepts exactly the numbers of the interval [[a, b]], and answers one
    message for each bound that is broken. *)
Theorem min_max_interval (a b v : Z) :
  (Rules.validator (Rules.many [Rules.min a; Rules.max b]) v = None <-> a <= v <= b)
  /\ (forall errs,
        Rules.validator (Rules.many [Rules.min a; Rules.max b]) v = Some errs ->
        length errs
        = ((if Z.ltb v a then 1 else 0) + (if Z.ltb b v then 1 else 0))%nat).
Proof.
  rewrite many_validator. unfold Rules.allErrors. simpl. rewrite Z.geb_leb.
  destruct (Z.leb_spec a v), (Z.leb_spec v b), (Z.ltb_spec v a), (Z.ltb_spec b v);
    try lia; simpl; (split; [split; [done || lia | done || lia] |]);
    intros errs [= <-]; done.
Qed.

(** X28.  The rule [x] of the file accepts a value exactly when its [n] lies
    between 1 and [arr.length - 1] and its [test] is "asdf". *)
Theorem x_accepts (v : Rules.A) :
  Rules.validator Rules.x v = None
  <-> 1 <= Rules.n v <= Z.of_nat (length (Rules.arr v)) - 1 /\ Rules.test v = "asdf".
Proof.
  unfold Rules.x. simpl.
  pose proof (Z.geb_le (Rules.n v) 1) as Hmin.
  destruct (Rules.n v >=? 1);
    destruct (Z.leb_spec (Rules.n v) (Z.of_nat (length (Rules.arr v)) - 1));
    destruct (String.eqb_spec (Rules.test v) "asdf"); simpl;
    intuition (try done; try lia; try congruence).
Qed.
